(** * The SMS service loader: registry, selector, invoker and dispatcher

    A shallow embedding of [smsvip_loader.py] (class [SMSServiceLoader] and
    the module-level [get_loader]) together with the constants of
    [config.py] it reads, and of the request models and handlers of
    [main.py] that call it.

    Conventions of the embedding.
    - Python [int] is [Z]; [len] is [Z.of_nat (length _)].
    - Python [str] is [string], the UTF-8 bytes of the text.  [str.lower]
      is not modelled: the functions that call it take it as an argument,
      [str_lower], and the properties hold for every such function;
      [ascii_lower] is what it does on ASCII text.
    - [self.services] is an insertion-ordered Python [dict]: an association
      list in which assignment to a present key keeps its position.
    - The dictionaries returned by [_call_service] are finite maps from
      field names to Python values ([gmap string pyval]).
    - A Python call either returns or raises; [outcome] records which, and
      an exception carries whether it is an instance of [Exception]
      (what [except Exception] catches) or only of [BaseException]
      ([SystemExit], [KeyboardInterrupt], [GeneratorExit]).
    - [random.sample] consumes draws of the generator, given as a stream;
      it is modelled by the selection loop over a pool that CPython runs
      for populations that are small against the sample (for large ones it
      rejects positions already chosen instead; either way positions are
      chosen without repetition).
    - A function of the registry has passed [inspect.signature] when it
      was registered, and is held with its parameter names; the functions
      of a module come with what the inspection does on each of them.
    - Time is counted in whole seconds from the call of [as_completed];
      the instant at which a submitted future completes is supplied by a
      schedule, which stands for the latency of the adapter and for the
      queueing of the worker pool.
    - Of the log output only that of the loading path is kept (it is what
      makes a reload observable); the [logger.error] line of
      [_call_service] has no influence on any returned value. *)

From Stdlib Require Import ZArith Lia Ascii.
From stdpp Require Import base list strings gmap pretty sorting.

Set Warnings "-register-all".

Local Open Scope Z_scope.

(** ** Python exceptions and call outcomes *)

Record exn := mkExn {
  exn_type : string;          (* name of the class, e.g. [ValueError] *)
  exn_is_Exception : bool;    (* [isinstance(e, Exception)] *)
  exn_str : string            (* [str(e)] *)
}.

Inductive outcome (A : Type) : Type :=
| Returns (a : A)
| Raises (e : exn).
Arguments Returns {A} a.
Arguments Raises {A} e.

Definition ValueError (msg : string) : exn := mkExn "ValueError" true msg.
Definition IndexError (msg : string) : exn := mkExn "IndexError" true msg.
Definition KeyError (msg : string) : exn := mkExn "KeyError" true msg.
Definition TimeoutError (msg : string) : exn := mkExn "TimeoutError" true msg.
Definition SystemExit (msg : string) : exn := mkExn "SystemExit" false msg.

(** ** Python values that an adapter may return *)

Inductive pyval : Type :=
| PyNone
| PyBool (b : bool)
| PyInt (z : Z)
| PyStr (s : string)
| PyList (l : list pyval)
| PyObj (repr : string) (truth : bool).
    (* any other object, e.g. a [requests.Response], with its [__bool__] *)

(** [bool(v)], the test of [result if result else ...]. *)
Definition truthy (v : pyval) : bool :=
  match v with
  | PyNone => false
  | PyBool b => b
  | PyInt z => negb (z =? 0)
  | PyStr s => negb (String.eqb s "")
  | PyList l => match l with [] => false | _ :: _ => true end
  | PyObj _ t => t
  end.

(** [v == s] for a string literal [s]. *)
Definition eq_str (v : pyval) (s : string) : bool :=
  match v with
  | PyStr t => String.eqb t s
  | _ => false
  end.

(** ** Strings *)

Definition lower_ascii (c : ascii) : ascii :=
  let n := nat_of_ascii c in
  if (Nat.leb 65 n && Nat.leb n 90)%bool then ascii_of_nat (n + 32)%nat else c.

(** [s.lower()] for an ASCII text [s]. *)
Fixpoint ascii_lower (s : string) : string :=
  match s with
  | EmptyString => EmptyString
  | String c r => String (lower_ascii c) (ascii_lower r)
  end.

(** [needle in hay] on strings. *)
Fixpoint contains (needle hay : string) : bool :=
  (String.prefix needle hay ||
   match hay with
   | EmptyString => false
   | String _ r => contains needle r
   end)%bool.

(** [s.startswith('_')] *)
Definition startswith_underscore (s : string) : bool := String.prefix "_" s.

(** ** Configuration ([config.py]) *)

Module config.
Definition MAX_WORKERS : Z := 500.
Definition REQUEST_TIMEOUT : nat := 10.
Definition SERVICE_FILES : list string :=
  ["smsvip_0"; "smsvip_1"; "smsvip_2"; "smsvip_3"; "smsvip_4"].
End config.

(** ** Callables

    A service function is known to the loader through its signature (the
    parameter names of [inspect.signature]) and through what a call does.
    A call is made either with the target as a keyword argument or
    positionally; its outcome may depend on which, since binding the
    argument can itself raise [TypeError]. *)

Inductive call_conv : Type :=
| ByKeyword (name : string)
| Positional.

Record pyfunc := mkFunc {
  fn_params : list string;
  fn_call : call_conv → string → outcome pyval
}.

Definition has_param (name : string) (f : pyfunc) : bool :=
  existsb (String.eqb name) (fn_params f).

(** ** Insertion-ordered dictionaries *)

Section dict.
Context {V : Type}.

Definition dict := list (string * V).

(** [d[k] = v] *)
Fixpoint dict_set (d : dict) (k : string) (v : V) : dict :=
  match d with
  | [] => [(k, v)]
  | (k', v') :: r =>
      if String.eqb k' k then (k', v) :: r else (k', v') :: dict_set r k v
  end.

Definition dict_keys (d : dict) : list string := d.*1.

(** Keys of a dictionary are pairwise distinct. *)
Definition dict_wf (d : dict) : Prop := NoDup (dict_keys d).
End dict.
Arguments dict V : clear implicits.

(** ** The loader object *)

Abbreviation result_dict := (gmap string pyval).

Record SMSServiceLoader := mkLoader {
  services : dict pyfunc;
  service_names : list string;
  executor_max_workers : Z
}.

(** [SMSServiceLoader()] *)
Definition new_loader : SMSServiceLoader :=
  mkLoader [] [] config.MAX_WORKERS.

(** [get_service_count] *)
Definition get_service_count (self : SMSServiceLoader) : Z :=
  Z.of_nat (length (services self)).

(** ** Invoker: [_call_service] *)

Definition success_result (service_name : string) (payload : pyval) : result_dict :=
  <["result" := payload]>
    (<["status" := PyStr "success"]> (<["service" := PyStr service_name]> ∅)).

Definition error_result (service_name : string) (msg : string) : result_dict :=
  <["error" := PyStr msg]>
    (<["status" := PyStr "error"]> (<["service" := PyStr service_name]> ∅)).

(** How the target is passed: [phone=], else [sdt=], else positionally. *)
Definition calling_convention (service_func : pyfunc) : call_conv :=
  if has_param "phone" service_func then ByKeyword "phone"
  else if has_param "sdt" service_func then ByKeyword "sdt"
  else Positional.

Definition _call_service (service_name : string) (service_func : pyfunc)
    (phone : string) : outcome result_dict :=
  match fn_call service_func (calling_convention service_func) phone with
  | Returns result =>
      Returns (success_result service_name
                 (if truthy result then result else PyStr "SMS sent"))
  | Raises e =>
      if exn_is_Exception e
      then Returns (error_result service_name (exn_str e))
      else Raises e
  end.

(** ** Selector: [random.sample] and [get_random_services] *)

(** The generator of the [random] module: the stream of its raw draws. *)
Definition rng := nat → nat.

(** [randbelow(n)]: the next draw reduced below [n]. *)
Definition randbelow (n : nat) (g : rng) : nat * rng :=
  ((g 0 `mod` n)%nat, λ i, g (S i)).

Section sample.
Context {A : Type}.

(** The selection loop of [random.sample] over a pool of [n] entries:
    [for i in range(k): j = randbelow(n-i); result[i] = pool[j];
     pool[j] = pool[n-i-1]].  [todo] counts the rounds that remain. *)
Fixpoint sample_pool (n todo i : nat) (pool : list A) (g : rng)
    : outcome (list A) * rng :=
  match todo with
  | O => (Returns [], g)
  | S todo' =>
      let '(j, g1) := randbelow (n - i) g in
      match pool !! j, pool !! (n - i - 1)%nat with
      | Some x, Some y =>
          match sample_pool n todo' (S i) (<[j := y]> pool) g1 with
          | (Returns rest, g2) => (Returns (x :: rest), g2)
          | (Raises e, g2) => (Raises e, g2)
          end
      | _, _ => (Raises (IndexError "list index out of range"), g1)
      end
  end.

(** [random.sample(population, k)] *)
Definition random_sample (population : list A) (k : Z) (g : rng)
    : outcome (list A) * rng :=
  let n := length population in
  if ((0 <=? k) && (k <=? Z.of_nat n))%bool
  then sample_pool n (Z.to_nat k) 0 population g
  else (Raises (ValueError "Sample larger than population or is negative"), g).
End sample.

Definition get_random_services (self : SMSServiceLoader) (amount : Z) (g : rng)
    : outcome (list (string * pyfunc)) * rng :=
  let amount :=
    if amount >? Z.of_nat (length (services self))
    then Z.of_nat (length (services self))
    else amount in
  random_sample (services self) amount g.

(** ** Dispatcher: futures, [as_completed] and [send_sms_batch] *)

(** When the future of the call submitted for a service key completes,
    in seconds after [as_completed] was called. *)
Definition schedule := string → nat.

Record future := mkFuture {
  fut_service : string;               (* [futures[future]] *)
  fut_outcome : outcome result_dict;  (* what [future.result()] does *)
  fut_done_at : nat
}.

(** [self.executor.submit(self._call_service, service_name, service_func, phone)] *)
Definition submit (sched : schedule) (phone : string)
    (entry : string * pyfunc) : future :=
  mkFuture entry.1 (_call_service entry.1 entry.2 phone) (sched entry.1).

Definition done_before (f1 f2 : future) : Prop :=
  (fut_done_at f1 ≤ fut_done_at f2)%nat.

#[global] Instance done_before_dec : RelDecision done_before :=
  λ f1 f2, decide (fut_done_at f1 ≤ fut_done_at f2)%nat.

(** [as_completed(fs, timeout)]: the futures it yields, in order of
    completion, and the [TimeoutError] it raises afterwards if some
    future is still pending when the timeout has elapsed. *)
Definition as_completed (fs : list future) (timeout : nat)
    : list future * option exn :=
  let finished := filter (λ f, (fut_done_at f ≤ timeout)%nat) fs in
  let pending := filter (λ f, ¬ (fut_done_at f ≤ timeout)%nat) fs in
  (merge_sort done_before finished,
   match pending with
   | [] => None
   | _ :: _ =>
       Some (TimeoutError (pretty (length pending) +:+ " (of "
                           +:+ pretty (length fs) +:+ ") futures unfinished"))
   end).

Record tally := mkTally {
  t_results : list result_dict;
  t_success : Z;
  t_error : Z
}.

(** One round of the collection loop, for the future it was handed. *)
Definition collect_one (t : tally) (f : future) : outcome tally :=
  match fut_outcome f with
  | Returns result =>
      let results := t_results t ++ [result] in
      match result !! "status" with
      | Some st =>
          if eq_str st "success"
          then Returns (mkTally results (t_success t + 1) (t_error t))
          else Returns (mkTally results (t_success t) (t_error t + 1))
      | None =>
          (* [result["status"]] raises [KeyError], caught below it *)
          Returns (mkTally
            (results ++ [error_result (fut_service f)
                           ("Timeout or execution error: "
                            +:+ exn_str (KeyError "'status'"))])
            (t_success t) (t_error t + 1))
      end
  | Raises e =>
      if exn_is_Exception e
      then Returns (mkTally
             (t_results t ++ [error_result (fut_service f)
                                ("Timeout or execution error: " +:+ exn_str e)])
             (t_success t) (t_error t + 1))
      else Raises e
  end.

Fixpoint collect (t : tally) (fs : list future) : outcome tally :=
  match fs with
  | [] => Returns t
  | f :: rest =>
      match collect_one t f with
      | Returns t' => collect t' rest
      | Raises e => Raises e
      end
  end.

Record BatchResult := mkBatch {
  phone : string;
  requested : Z;
  total_services : Z;
  results : list result_dict;
  success_count : Z;
  error_count : Z
}.

Definition send_sms_batch (self : SMSServiceLoader) (sched : schedule)
    (phone : string) (amount : Z) (g : rng) : outcome BatchResult * rng :=
  match get_random_services self amount g with
  | (Raises e, g') => (Raises e, g')
  | (Returns selected_services, g') =>
      let futures := submit sched phone <$> selected_services in
      let '(finished, timed_out) := as_completed futures config.REQUEST_TIMEOUT in
      match collect (mkTally [] 0 0) finished with
      | Raises e => (Raises e, g')
      | Returns t =>
          match timed_out with
          | Some e => (Raises e, g')
          | None =>
              (Returns (mkBatch phone amount
                          (Z.of_nat (length selected_services))
                          (t_results t) (t_success t) (t_error t)), g')
          end
      end
  end.

(** ** Single dispatch: [send_sms_single] *)

(** [service_name.lower() in k.lower()], [str_lower] being [str.lower]. *)
Definition name_matches (str_lower : string → string)
    (service_name : string) (entry : string * pyfunc) : bool :=
  contains (str_lower service_name) (str_lower entry.1).

Definition not_found_result (service_name : string) : result_dict :=
  <["error" := PyStr ("Service '" +:+ service_name +:+ "' not found")]>
    (<["status" := PyStr "error"]> ∅).

Definition send_sms_single (str_lower : string → string)
    (self : SMSServiceLoader) (phone : string)
    (service_name : string) : outcome result_dict :=
  let matching_services :=
    List.filter (name_matches str_lower service_name) (services self) in
  match matching_services with
  | [] => Returns (not_found_result service_name)
  | (service_key, service_func) :: _ => _call_service service_key service_func phone
  end.

(** ** Registry: [load_all_services] and [get_loader] *)

(** A module of the [services] package, as far as the loader looks at
    it: what [inspect.getmembers(module, inspect.isfunction)] gives, each
    function with what [inspect.signature] does on it, which is to find
    its parameter names or to raise. *)
Record pymodule := mkModule {
  getmembers_isfunction : outcome (list (string * outcome pyfunc))
}.

(** [importlib.import_module], by module name. *)
Definition import_env := string → outcome pymodule.

Definition import_functions (env : import_env) (service_file : string)
    : outcome (list (string * outcome pyfunc)) :=
  match env ("services." +:+ service_file) with
  | Returns module => getmembers_isfunction module
  | Raises e => Raises e
  end.

(** What the loop over the functions does with a public function once its
    signature is known. *)
Definition register_function (service_file : string) (self : SMSServiceLoader)
    (func_name : string) (func : pyfunc) : SMSServiceLoader :=
  if (has_param "phone" func || has_param "sdt" func)%bool
  then mkLoader
         (dict_set (services self) (service_file +:+ "_" +:+ func_name) func)
         (service_names self ++ [func_name])
         (executor_max_workers self)
  else self.

(** The loop over the functions of one module.  A private function is
    passed over before its signature is asked for; where
    [inspect.signature] raises the loop ends, and the functions registered
    until then stay registered. *)
Fixpoint register_functions (service_file : string) (self : SMSServiceLoader)
    (functions : list (string * outcome pyfunc))
    : outcome unit * SMSServiceLoader :=
  match functions with
  | [] => (Returns (), self)
  | (func_name, inspection) :: rest =>
      if startswith_underscore func_name
      then register_functions service_file self rest
      else
        match inspection with
        | Returns func =>
            register_functions service_file
              (register_function service_file self func_name func) rest
        | Raises e => (Raises e, self)
        end
  end.

Definition public_count (functions : list (string * outcome pyfunc)) : nat :=
  length (List.filter (λ f, negb (startswith_underscore f.1)) functions).

(** The body of the [try] for one service file, up to the line it logs:
    the functions of the module when it got through, or the exception
    that ended it, and the loader as it is then. *)
Definition load_service_file (env : import_env) (service_file : string)
    (self : SMSServiceLoader)
    : outcome (list (string * outcome pyfunc)) * SMSServiceLoader :=
  match import_functions env service_file with
  | Returns functions =>
      match register_functions service_file self functions with
      | (Returns _, self') => (Returns functions, self')
      | (Raises e, self') => (Raises e, self')
      end
  | Raises e => (Raises e, self)
  end.

(** The loop over the service files; the loader and the log are threaded
    through it, and an exception that [except Exception] does not catch
    leaves it with both as they are at that point. *)
Fixpoint load_files (env : import_env) (files : list string)
    (self : SMSServiceLoader) (log : list string)
    : outcome unit * SMSServiceLoader * list string :=
  match files with
  | [] => (Returns (), self, log)
  | service_file :: rest =>
      match load_service_file env service_file self with
      | (Returns functions, self') =>
          load_files env rest self'
            (log ++ ["Loaded " +:+ pretty (public_count functions)
                     +:+ " functions from " +:+ service_file])
      | (Raises e, self') =>
          if exn_is_Exception e
          then load_files env rest self'
                 (log ++ ["Error loading " +:+ service_file +:+ ": " +:+ exn_str e])
          else (Raises e, self', log)
      end
  end.

(** [load_all_services], for a given list of service files. *)
Definition load_services_from (env : import_env) (files : list string)
    (self : SMSServiceLoader) (log : list string)
    : outcome (dict pyfunc) * SMSServiceLoader * list string :=
  match load_files env files self (log ++ ["Loading SMS services..."]) with
  | (Returns _, self', log') =>
      (Returns (services self'), self',
       log' ++ ["Total services loaded: " +:+ pretty (length (services self'))])
  | (Raises e, self', log') => (Raises e, self', log')
  end.

Definition load_all_services (env : import_env) (self : SMSServiceLoader)
    (log : list string)
    : outcome (dict pyfunc) * SMSServiceLoader * list string :=
  load_services_from env config.SERVICE_FILES self log.

(** The module-level state: the global [_loader] and the records logged. *)
Record world := mkWorld {
  _loader : option SMSServiceLoader;
  logged : list string
}.

Definition get_loader (env : import_env) (w : world)
    : outcome SMSServiceLoader * world :=
  match _loader w with
  | Some loader => (Returns loader, w)
  | None =>
      (* [_loader] is bound to the new object before it is loaded *)
      let '(r, self', log') := load_all_services env new_loader (logged w) in
      let w' := mkWorld (Some self') log' in
      match r with
      | Returns _ => (Returns self', w')
      | Raises e => (Raises e, w')
      end
  end.

(** [get_available_services]: [list(set(self.service_names))], in the
    order in which the set happens to be iterated. *)
Definition get_available_services (self : SMSServiceLoader) : list string :=
  elements (list_to_set (service_names self) : gset string).

(** ** The HTTP surface ([main.py])

    The handlers are given the validated request; what FastAPI does with
    the response is left out.  An [HTTPException] that a handler raises is
    its response.  The phone number and the service name are ASCII text
    ([str.isdigit] and [len] are modelled on it). *)

Module main.

(** [c.isdigit()] *)
Definition isdigit (c : ascii) : bool :=
  let n := nat_of_ascii c in (Nat.leb 48 n && Nat.leb n 57)%bool.

(** [''.join(filter(str.isdigit, v))] *)
Fixpoint digits_of (v : string) : string :=
  match v with
  | EmptyString => EmptyString
  | String c r => if isdigit c then String c (digits_of r) else digits_of r
  end.

(** The validator of the [phone] field, the same in both request models. *)
Definition validate_phone (v : string) : outcome string :=
  let phone := digits_of v in
  if ((Z.of_nat (String.length phone) <? 10)
      || (Z.of_nat (String.length phone) >? 11))%bool
  then Raises (ValueError "Số điện thoại phải có 10-11 số")
  else if negb (String.prefix "0" phone)
  then Raises (ValueError "Số điện thoại phải bắt đầu bằng số 0")
  else Returns phone.

Record SMSRequest := mkSMSRequest {
  phone : string;
  amount : Z
}.

Record SingleServiceRequest := mkSingleServiceRequest {
  single_phone : string;
  service_name : string
}.

(** [SMSRequest(phone=..., amount=...)]: [amount] defaults to 10 and is
    held to [ge=1, le=2000]; [None] when the validation fails. *)
Definition new_SMSRequest (phone : string) (amount : option Z)
    : option SMSRequest :=
  let amount := default 10 amount in
  match validate_phone phone with
  | Returns phone' =>
      if ((1 <=? amount) && (amount <=? 2000))%bool
      then Some (mkSMSRequest phone' amount)
      else None
  | Raises _ => None
  end.

(** [SingleServiceRequest(phone=..., service_name=...)] *)
Definition new_SingleServiceRequest (phone service_name : string)
    : option SingleServiceRequest :=
  match validate_phone phone with
  | Returns phone' => Some (mkSingleServiceRequest phone' service_name)
  | Raises _ => None
  end.

(** The bodies of the responses, by their shape. *)
Inductive json_body : Type :=
| ServiceList (total : Z) (listed : list string)
    (* [{"status": "success", "total", "services"}] *)
| BatchCompleted (message : string) (data : BatchResult)
    (* [{"status": "completed", "message", "data"}] *)
| SpamCompleted (message : string) (details : BatchResult)
    (* [{"status": "completed", "message", "details"}] *)
| SpamError (message : string)
    (* [{"status": "error", "message"}] *)
| SingleSuccess (message : string) (data : result_dict).
    (* [{"status": "success", "message", "data"}] *)

Inductive http_response : Type :=
| Response (body : json_body)
| HTTPException (status_code : Z) (detail : pyval).

(** [except Exception as e: raise HTTPException(500, detail=prefix + str(e))] *)
Definition internal_error (prefix : string) (e : exn) : outcome http_response :=
  if exn_is_Exception e
  then Returns (HTTPException 500 (PyStr (prefix +:+ exn_str e)))
  else Raises e.

Definition string_le (a b : string) : Prop := String.leb a b = true.

#[global] Instance string_le_dec : RelDecision string_le :=
  λ a b, decide (String.leb a b = true).

(** [sorted(names)] *)
Definition sorted (names : list string) : list string :=
  merge_sort string_le names.

(** [GET /api/sms/services] *)
Definition list_services (env : import_env) (w : world)
    : outcome http_response * world :=
  match get_loader env w with
  | (Raises e, w') => (internal_error "Error listing services: " e, w')
  | (Returns loader, w') =>
      let services := get_available_services loader in
      (Returns (Response (ServiceList (Z.of_nat (length services))
                            (take 50 (sorted services)))), w')
  end.

(** [except Exception as e: return {"status": "error", "message": str(e)}] *)
Definition spam_error (e : exn) : outcome http_response :=
  if exn_is_Exception e
  then Returns (Response (SpamError (exn_str e)))
  else Raises e.

(** [GET /api/spam] *)
Definition spam_get (env : import_env) (sched : schedule)
    (phone : string) (amount : Z) (w : world) (g : rng)
    : outcome http_response * world * rng :=
  if (negb (String.prefix "0" phone)
      || (Z.of_nat (String.length phone) <? 10))%bool
  then (Returns (Response (SpamError "So dien thoai khong hop le")), w, g)
  else
    let amount := if amount >? 2000 then 2000 else amount in
    match get_loader env w with
    | (Raises e, w') => (spam_error e, w', g)
    | (Returns loader, w') =>
        match send_sms_batch loader sched phone amount g with
        | (Returns results, g') =>
            (Returns (Response (SpamCompleted
               ("SPAM SUCCESS: " +:+ pretty (success_count results) +:+ "/"
                +:+ pretty (total_services results) +:+ " services -> "
                +:+ phone)
               results)), w', g')
        | (Raises e, g') => (spam_error e, w', g')
        end
    end.

(** [POST /api/sms/single] *)
Definition send_sms_single (str_lower : string → string) (env : import_env)
    (request : SingleServiceRequest) (w : world)
    : outcome http_response * world :=
  match get_loader env w with
  | (Raises e, w') => (internal_error "Error sending SMS: " e, w')
  | (Returns loader, w') =>
      match send_sms_single str_lower loader (single_phone request)
              (service_name request) with
      | Returns result =>
          if match result !! "status" with
             | Some st => eq_str st "error"
             | None => false
             end
          then (Returns (HTTPException 404 (default PyNone (result !! "error"))), w')
          else (Returns (Response (SingleSuccess
                  ("Đã gửi SMS qua dịch vụ " +:+ service_name request)
                  result)), w')
      | Raises e => (internal_error "Error sending SMS: " e, w')
      end
  end.

(** [POST /api/sms/send] *)
Definition send_sms_batch (env : import_env) (sched : schedule)
    (request : SMSRequest) (w : world) (g : rng)
    : outcome http_response * world * rng :=
  match get_loader env w with
  | (Raises e, w') => (internal_error "Error sending SMS: " e, w', g)
  | (Returns loader, w') =>
      match send_sms_batch loader sched (phone request) (amount request) g with
      | (Returns results, g') =>
          (Returns (Response (BatchCompleted
             ("Đã gửi SMS qua " +:+ pretty (success_count results) +:+ "/"
              +:+ pretty (total_services results) +:+ " dịch vụ")
             results)), w', g')
      | (Raises e, g') => (internal_error "Error sending SMS: " e, w', g')
      end
  end.

End main.

(** * Vocabulary of the properties *)

(** A result carries exactly one of the payload and the error message,
    the one that goes with its status. *)
Definition exactly_one_field (d : result_dict) : Prop :=
  (d !! "status" = Some (PyStr "success")
   ∧ is_Some (d !! "result") ∧ d !! "error" = None)
  ∨ (d !! "status" = Some (PyStr "error")
     ∧ is_Some (d !! "error") ∧ d !! "result" = None).

(** The future holds a result with status ["success"]. *)
Definition fut_success (f : future) : bool :=
  match fut_outcome f with
  | Returns d =>
      match d !! "status" with
      | Some st => eq_str st "success"
      | None => false
      end
  | Raises _ => false
  end.

(** [future.result()] raises what [except Exception] does not catch. *)
Definition fut_fatal (f : future) : bool :=
  match fut_outcome f with
  | Returns _ => false
  | Raises e => negb (exn_is_Exception e)
  end.

(** The result held by the future, if any, is well formed. *)
Definition from_invoker (f : future) : Prop :=
  ∀ d, fut_outcome f = Returns d → exactly_one_field d.

(** The adapter raises when it is called for the target. *)
Definition raises (target : string) (entry : string * pyfunc) : bool :=
  match fn_call entry.2 (calling_convention entry.2) target with
  | Returns _ => false
  | Raises _ => true
  end.

(** Whatever the adapter raises for the target is an [Exception]. *)
Definition raises_only_Exception (target : string) (entry : string * pyfunc) : Prop :=
  ∀ e, fn_call entry.2 (calling_convention entry.2) target = Raises e →
       exn_is_Exception e = true.

(** [needle] occurs in [hay]. *)
Definition is_substring (needle hay : string) : Prop :=
  ∃ pre post, hay = pre +:+ needle +:+ post.



(** The loader registers the function: its name is public and it takes
    [phone] or [sdt]. *)
Definition registrable (member : string * pyfunc) : bool :=
  (negb (startswith_underscore member.1)
   && (has_param "phone" member.2 || has_param "sdt" member.2))%bool.

(** The entry stems from a registrable function of one of the files. *)
Definition registered_from (env : import_env) (files : list string)
    (entry : string * pyfunc) : Prop :=
  ∃ service_file func_name functions,
    service_file ∈ files
    ∧ import_functions env service_file = Returns functions
    ∧ (func_name, Returns entry.2) ∈ functions
    ∧ entry.1 = service_file +:+ "_" +:+ func_name
    ∧ registrable (func_name, entry.2) = true.

(** The imports of [env], but for the module of the service file, which
    is imported and has the given functions. *)
Definition with_functions (env : import_env) (service_file : string)
    (functions : list (string * outcome pyfunc)) : import_env :=
  λ module_name,
    if String.eqb module_name ("services." +:+ service_file)
    then Returns (mkModule (Returns functions))
    else env module_name.

(** No public function of the list fails [inspect.signature]. *)
Definition all_inspectable (functions : list (string * outcome pyfunc)) : Prop :=
  ∀ func_name e,
    (func_name, Raises e) ∈ functions → startswith_underscore func_name = true.

(** The text is ASCII. *)
Fixpoint all_ascii (s : string) : bool :=
  match s with
  | EmptyString => true
  | String c r => (Nat.ltb (nat_of_ascii c) 128 && all_ascii r)%bool
  end.

(** Every character of the text is a digit. *)
Fixpoint all_digits (s : string) : bool :=
  match s with
  | EmptyString => true
  | String c r => (main.isdigit c && all_digits r)%bool
  end.

(** The selected adapters whose call is not done within [REQUEST_TIMEOUT]. *)
Definition late (sched : schedule) (selected : list (string * pyfunc))
    : list (string * pyfunc) :=
  filter (λ entry, ¬ (sched entry.1 ≤ config.REQUEST_TIMEOUT)%nat) selected.

(** The text without its first [n] characters. *)
Fixpoint drop_chars (n : nat) (s : string) : string :=
  match n, s with
  | O, _ => s
  | S n', String _ r => drop_chars n' r
  | S _, EmptyString => EmptyString
  end.

(** * Example inputs *)

Definition sends : pyfunc :=
  mkFunc ["phone"] (λ _ target, Returns (PyStr ("sent to " +:+ target))).
Definition quiet : pyfunc :=
  mkFunc ["sdt"] (λ _ _, Returns PyNone).
Definition refuses : pyfunc :=
  mkFunc ["phone"] (λ _ _, Raises (mkExn "ConnectionError" true "connection refused")).
Definition exits : pyfunc :=
  mkFunc ["phone"] (λ _ _, Raises (SystemExit "1")).

Definition registry3 : SMSServiceLoader :=
  mkLoader [("smsvip_0_momo", sends); ("smsvip_0_tiki", quiet);
            ("smsvip_1_fpt", refuses)]
           ["momo"; "tiki"; "fpt"] config.MAX_WORKERS.

Definition registry_with_exit : SMSServiceLoader :=
  mkLoader [("smsvip_0_momo", sends); ("smsvip_0_tiki", quiet);
            ("smsvip_2_exit", exits)]
           ["momo"; "tiki"; "exit"] config.MAX_WORKERS.

Definition registry10 : SMSServiceLoader :=
  mkLoader [("smsvip_0_s0", sends); ("smsvip_0_s1", sends);
            ("smsvip_0_s2", sends); ("smsvip_0_s3", sends);
            ("smsvip_0_s4", sends); ("smsvip_0_s5", sends);
            ("smsvip_0_s6", sends); ("smsvip_0_s7", sends);
            ("smsvip_0_s8", sends); ("smsvip_0_s9", sends)]
           ["s0"; "s1"; "s2"; "s3"; "s4"; "s5"; "s6"; "s7"; "s8"; "s9"]
           config.MAX_WORKERS.

Definition draws : rng := λ i, (7 * i + 3)%nat.

(** Every call is done after two seconds. *)
Definition prompt : schedule := λ _, 2%nat.

(** The call of [smsvip_0_s7] takes thirty seconds, the others two. *)
Definition one_slow : schedule :=
  λ key, if String.eqb key "smsvip_0_s7" then 30%nat else 2%nat.

(** [smsvip_0] and [smsvip_2] can be imported, the other modules are missing. *)
Definition env_two_modules : import_env :=
  λ module_name,
    if String.eqb module_name "services.smsvip_0"
    then Returns (mkModule (Returns
           [("_session", Returns sends); ("momo", Returns sends);
            ("version", Returns (mkFunc [] (λ _ _, Returns PyNone)))]))
    else if String.eqb module_name "services.smsvip_2"
    then Returns (mkModule (Returns [("viettel", Returns quiet)]))
    else Raises (mkExn "ModuleNotFoundError" true
                   ("No module named '" +:+ module_name +:+ "'")).

(** As [env_two_modules], but importing [smsvip_1] ends the interpreter. *)
Definition env_exit_on_import : import_env :=
  λ module_name,
    if String.eqb module_name "services.smsvip_1"
    then Raises (SystemExit "1")
    else env_two_modules module_name.

(** What the batch over [registry3] returns when five adapters are asked
    for and every call is done in time. *)
Definition batch3 : BatchResult :=
  mkBatch "0912345678" 5 3
    [success_result "smsvip_0_tiki" (PyStr "SMS sent");
     success_result "smsvip_0_momo" (PyStr "sent to 0912345678");
     error_result "smsvip_1_fpt" "connection refused"]
    2 1.

(** The functions of [smsvip_0], in the order of [inspect.getmembers]:
    [inspect.signature] raises on the second. *)
Definition functions_with_broken : list (string * outcome pyfunc) :=
  [("alpha", Returns sends);
   ("beta", Raises (ValueError "no signature found"));
   ("gamma", Returns sends)].

(** As [env_two_modules], with [functions_with_broken] in [smsvip_0]. *)
Definition env_broken_signature : import_env :=
  λ module_name,
    if String.eqb module_name "services.smsvip_0"
    then Returns (mkModule (Returns functions_with_broken))
    else env_two_modules module_name.

(** [str.lower] on the two texts of the example of the capital sigma, as
    Python computes it, and [ascii_lower] on other texts. *)
Definition lower_with_final_sigma (s : string) : string :=
  if String.eqb s "Σ" then "σ"
  else if String.eqb s "smsvip_0_ΑΣ" then "smsvip_0_ας"
  else ascii_lower s.

(** The registry of a single function, named [ΑΣ], of [smsvip_0]. *)
Definition registry_sigma : SMSServiceLoader :=
  mkLoader [("smsvip_0_ΑΣ", sends)] ["ΑΣ"] config.MAX_WORKERS.

(** The loader, and the module state, after [get_loader] was first called
    where [smsvip_0] and [smsvip_2] can be imported. *)
Definition world0 : world := mkWorld None [].
Definition loaded2 : SMSServiceLoader :=
  (load_all_services env_two_modules new_loader []).1.2.
Definition world1 : world := (get_loader env_two_modules world0).2.

Definition request0 : main.SMSRequest := main.mkSMSRequest "0912345678" 10.

(** * Properties *)

(** ** Sampling without replacement *)

Section sample_facts.
Context {A : Type}.
Implicit Types (pool res : list A) (g : rng).

Lemma randbelow_lt (n : nat) g : (0 < n)%nat → ((randbelow n g).1 < n)%nat.
Proof. intros Hn. simpl. apply Nat.mod_upper_bound. lia. Qed.

(** Overwriting position [j] by [y] trades the entry that was there for [y]. *)
Lemma insert_swap_perm pool (j : nat) (x y : A) :
  pool !! j = Some x → x :: <[j := y]> pool ≡ₚ y :: pool.
Proof.
  revert j. induction pool as [|a pool IH]; intros [|j] Hj; simplify_eq/=.
  - apply perm_swap.
  - rewrite (perm_swap a x), (IH _ Hj). apply perm_swap.
Qed.

(** One round of the loop: the entry drawn, with the pool that is left,
    is the pool that was there. *)
Lemma sample_round_perm pool (m j : nat) (x y : A) :
  (j ≤ m)%nat → pool !! j = Some x → pool !! m = Some y →
  x :: take m (<[j := y]> pool) ≡ₚ take (S m) pool.
Proof.
  intros Hjm Hx Hy. rewrite (take_S_r _ _ _ Hy).
  destruct (decide (j = m)) as [->|Hne].
  - rewrite take_insert_ge by lia. simplify_eq.
    apply Permutation_cons_append.
  - rewrite take_insert_lt by lia.
    rewrite insert_swap_perm.
    + apply Permutation_cons_append.
    + rewrite lookup_take_lt by lia. done.
Qed.

(** The loop returns, with [todo] entries taken from the part of the pool
    that is still unselected, each at most as often as it is there. *)
Lemma sample_pool_spec (todo n i : nat) pool g :
  length pool = n → (i + todo ≤ n)%nat →
  ∃ res g', sample_pool n todo i pool g = (Returns res, g')
            ∧ length res = todo
            ∧ res ⊆+ take (n - i) pool.
Proof.
  revert i pool g. induction todo as [|todo IH]; intros i pool g Hlen Hle.
  - exists [], g. split_and!; [done..|apply submseteq_nil_l].
  - cbn [sample_pool].
    pose proof (randbelow_lt (n - i) g ltac:(lia)) as Hj.
    destruct (randbelow (n - i) g) as [j g1]. simpl in Hj.
    destruct (lookup_lt_is_Some_2 pool j ltac:(lia)) as [x Hx].
    destruct (lookup_lt_is_Some_2 pool (n - i - 1) ltac:(lia)) as [y Hy].
    rewrite Hx, Hy.
    destruct (IH (S i) (<[j := y]> pool) g1) as (rest & g2 & -> & Hl & Hsub).
    { by rewrite length_insert. }
    { lia. }
    exists (x :: rest), g2. split_and!; [done|simpl; lia|].
    replace (n - i)%nat with (S (n - S i)) by lia.
    rewrite <- (sample_round_perm pool (n - S i) j x y).
    + by apply submseteq_skip.
    + lia.
    + done.
    + by replace (n - S i)%nat with (n - i - 1)%nat by lia.
Qed.

Lemma random_sample_spec (population : list A) (k : Z) g :
  0 ≤ k ≤ Z.of_nat (length population) →
  ∃ res g', random_sample population k g = (Returns res, g')
            ∧ Z.of_nat (length res) = k
            ∧ res ⊆+ population.
Proof.
  intros Hk. unfold random_sample.
  rewrite (proj2 (Z.leb_le 0 k)), (proj2 (Z.leb_le k _)) by lia. simpl.
  destruct (sample_pool_spec (Z.to_nat k) (length population) 0 population g)
    as (res & g' & -> & Hl & Hsub); [done|lia|].
  exists res, g'. split_and!; [done|lia|].
  by rewrite Nat.sub_0_r, firstn_all in Hsub.
Qed.

Lemma random_sample_negative (population : list A) (k : Z) g :
  k < 0 →
  random_sample population k g
  = (Raises (ValueError "Sample larger than population or is negative"), g).
Proof.
  intros Hk. unfold random_sample.
  by rewrite (proj2 (Z.leb_gt 0 k)) by lia.
Qed.
End sample_facts.

Lemma NoDup_of_submseteq {A} (l k : list A) : l ⊆+ k → NoDup k → NoDup l.
Proof.
  intros Hsub Hk. apply submseteq_Permutation in Hsub as [rest Hperm].
  rewrite Hperm in Hk. by apply NoDup_app in Hk as [? _].
Qed.

(** ** Dictionaries keep their keys distinct *)

Section dict_facts.
Context {V : Type}.
Implicit Types (d : dict V) (k : string) (v : V).

Lemma dict_set_present d k v :
  k ∈ dict_keys d → dict_keys (dict_set d k v) = dict_keys d.
Proof.
  unfold dict_keys. induction d as [|[k' v'] d IH]; intros Hin.
  - by apply elem_of_nil in Hin.
  - simpl. destruct (String.eqb_spec k' k) as [->|Hne]; [done|].
    simpl. f_equal. apply IH.
    apply elem_of_cons in Hin as [->|Hin]; [done|exact Hin].
Qed.

(** A new key goes to the end: insertion order. *)
Lemma dict_set_fresh d k v :
  k ∉ dict_keys d → dict_set d k v = d ++ [(k, v)].
Proof.
  unfold dict_keys. induction d as [|[k' v'] d IH]; intros Hnin; [done|].
  simpl in *. apply not_elem_of_cons in Hnin as [Hne Hnin].
  destruct (String.eqb_spec k' k) as [->|_]; [done|].
  by rewrite IH.
Qed.

Lemma dict_set_wf d k v : dict_wf d → dict_wf (dict_set d k v).
Proof.
  unfold dict_wf. intros Hwf.
  destruct (decide (k ∈ dict_keys d)) as [Hin|Hnin].
  - by rewrite dict_set_present.
  - rewrite dict_set_fresh by done. unfold dict_keys in *.
    rewrite fmap_app. apply NoDup_app. split_and!; [done| |].
    + intros x Hx Hx'. simpl in Hx'. apply list_elem_of_singleton in Hx'.
      by subst.
    + apply NoDup_singleton.
Qed.
End dict_facts.

(** ** The selector *)

Lemma get_random_services_spec (self : SMSServiceLoader) (amount : Z) (g : rng) :
  0 ≤ amount →
  ∃ selected g',
    get_random_services self amount g = (Returns selected, g')
    ∧ Z.of_nat (length selected) = Z.min amount (get_service_count self)
    ∧ selected ⊆+ services self.
Proof.
  intros Hn. unfold get_random_services, get_service_count.
  destruct (Z.gtb_spec amount (Z.of_nat (length (services self)))) as [Hgt|Hle].
  - destruct (random_sample_spec (services self)
                (Z.of_nat (length (services self))) g)
      as (res & g' & -> & Hl & Hsub); [lia|].
    exists res, g'. split_and!; [done|lia|done].
  - destruct (random_sample_spec (services self) amount g)
      as (res & g' & -> & Hl & Hsub); [lia|].
    exists res, g'. split_and!; [done|lia|done].
Qed.

Lemma get_random_services_negative (self : SMSServiceLoader) (amount : Z) (g : rng) :
  amount < 0 →
  get_random_services self amount g
  = (Raises (ValueError "Sample larger than population or is negative"), g).
Proof.
  intros Hn. unfold get_random_services.
  destruct (Z.gtb_spec amount (Z.of_nat (length (services self)))) as [Hgt|Hle];
    [lia|].
  by apply random_sample_negative.
Qed.

(** C3. For a registry (a dictionary, so with distinct keys) and an amount
    [n >= 0], [get_random_services n] returns exactly [min(n, size())]
    entries of the registry whose keys are pairwise distinct; for an empty
    registry that is the empty list, and for [n > size()] it is [size()]
    entries. *)
Theorem get_random_services_distinct
    (self : SMSServiceLoader) (n : Z) (g : rng) :
  dict_wf (services self) → 0 ≤ n →
  ∃ selected g',
    get_random_services self n g = (Returns selected, g')
    ∧ Z.of_nat (length selected) = Z.min n (get_service_count self)
    ∧ NoDup (dict_keys selected)
    ∧ selected ⊆+ services self
    ∧ (get_service_count self = 0 → selected = [])
    ∧ (n > get_service_count self →
       Z.of_nat (length selected) = get_service_count self).
Proof.
  intros Hwf Hn.
  destruct (get_random_services_spec self n g Hn)
    as (selected & g' & Heq & Hlen & Hsub).
  exists selected, g'. split_and!; [done|done| |done| |].
  - unfold dict_wf, dict_keys in *.
    eapply NoDup_of_submseteq; [|exact Hwf]. by apply fmap_submseteq.
  - intros Hz. rewrite Hz in Hlen.
    destruct selected; [done|]. simpl in Hlen. lia.
  - intros Hgt. lia.
Qed.

(** C10. Clamping is one-sided: an amount above the registry size is
    clamped down to it, an amount within [0, size()] is passed on as it is,
    and every negative amount makes [random.sample] raise [ValueError],
    also on an empty registry; the call returns exactly when [n >= 0]. *)
Theorem get_random_services_one_sided_clamp
    (self : SMSServiceLoader) (amount : Z) (g : rng) :
  (amount > get_service_count self →
     get_random_services self amount g
     = get_random_services self (get_service_count self) g)
  ∧ (amount ≤ get_service_count self →
     get_random_services self amount g
     = random_sample (services self) amount g)
  ∧ (amount < 0 →
     get_random_services self amount g
     = (Raises (ValueError "Sample larger than population or is negative"), g))
  ∧ (amount < 0 →
     get_random_services (mkLoader [] [] config.MAX_WORKERS) amount g
     = (Raises (ValueError "Sample larger than population or is negative"), g))
  ∧ ((∃ selected g', get_random_services self amount g = (Returns selected, g'))
     ↔ 0 ≤ amount).
Proof.
  split_and!.
  - intros Hgt. unfold get_random_services, get_service_count in *.
    rewrite (proj2 (Z.gtb_gt _ _)) by lia.
    by rewrite Z.gtb_ltb, Z.ltb_irrefl.
  - intros Hle. unfold get_random_services, get_service_count in *.
    destruct (Z.gtb_spec amount (Z.of_nat (length (services self)))); [lia|done].
  - apply get_random_services_negative.
  - apply get_random_services_negative.
  - split.
    + intros (selected & g' & Heq).
      destruct (Z.lt_ge_cases amount 0) as [Hneg|Hpos]; [|done].
      rewrite get_random_services_negative in Heq by done. discriminate.
    + intros Hn.
      destruct (get_random_services_spec self amount g Hn)
        as (selected & g' & Heq & _).
      by exists selected, g'.
Qed.

(** ** The invoker *)

Lemma success_result_fields (service_name : string) (payload : pyval) :
  success_result service_name payload !! "service" = Some (PyStr service_name)
  ∧ success_result service_name payload !! "status" = Some (PyStr "success")
  ∧ success_result service_name payload !! "result" = Some payload
  ∧ success_result service_name payload !! "error" = None.
Proof. unfold success_result. by simplify_map_eq. Qed.

Lemma error_result_fields (service_name msg : string) :
  error_result service_name msg !! "service" = Some (PyStr service_name)
  ∧ error_result service_name msg !! "status" = Some (PyStr "error")
  ∧ error_result service_name msg !! "error" = Some (PyStr msg)
  ∧ error_result service_name msg !! "result" = None.
Proof. unfold error_result. by simplify_map_eq. Qed.

Lemma not_found_result_fields (service_name : string) :
  not_found_result service_name !! "service" = None
  ∧ not_found_result service_name !! "status" = Some (PyStr "error")
  ∧ is_Some (not_found_result service_name !! "error")
  ∧ not_found_result service_name !! "result" = None.
Proof. unfold not_found_result. by simplify_map_eq. Qed.

Lemma success_result_one_field service_name payload :
  exactly_one_field (success_result service_name payload).
Proof.
  destruct (success_result_fields service_name payload) as (_ & Hs & Hr & He).
  left. by rewrite Hs, Hr, He.
Qed.

Lemma error_result_one_field service_name msg :
  exactly_one_field (error_result service_name msg).
Proof.
  destruct (error_result_fields service_name msg) as (_ & Hs & He & Hr).
  right. by rewrite Hs, He, Hr.
Qed.

Lemma not_found_result_one_field service_name :
  exactly_one_field (not_found_result service_name).
Proof.
  destruct (not_found_result_fields service_name) as (_ & Hs & He & Hr).
  right. by rewrite Hs, Hr.
Qed.

(** What [_call_service] returns is one of the two dictionaries it builds. *)
Lemma _call_service_returns service_name service_func phone d :
  _call_service service_name service_func phone = Returns d →
  (∃ payload, d = success_result service_name payload)
  ∨ (∃ msg, d = error_result service_name msg).
Proof.
  unfold _call_service.
  destruct (fn_call _ _ _) as [v|e].
  - intros [= <-]. left. eauto.
  - destruct (exn_is_Exception e); [|done]. intros [= <-]. right. eauto.
Qed.

Lemma _call_service_one_field service_name service_func phone d :
  _call_service service_name service_func phone = Returns d →
  exactly_one_field d.
Proof.
  intros Hcall.
  apply _call_service_returns in Hcall as [[v ->]|[msg ->]].
  - apply success_result_one_field.
  - apply error_result_one_field.
Qed.

Lemma _call_service_has_service service_name service_func phone d :
  _call_service service_name service_func phone = Returns d →
  d !! "service" = Some (PyStr service_name).
Proof.
  intros Hcall.
  apply _call_service_returns in Hcall as [[v ->]|[msg ->]].
  - apply success_result_fields.
  - apply error_result_fields.
Qed.

(** C8. When the adapter returns a falsy value, the payload of the success
    result is the string ["SMS sent"], whatever the value was: two falsy
    returns give the same result, so the caller cannot tell them apart.
    A truthy value is reported as it is.  [None], [0], [""], [False] and
    the empty list are falsy. *)
Theorem falsy_return_replaced_by_sentinel
    (service_name phone : string) (service_func : pyfunc) (v : pyval) :
  fn_call service_func (calling_convention service_func) phone = Returns v →
  (truthy v = false →
     _call_service service_name service_func phone
     = Returns (success_result service_name (PyStr "SMS sent")))
  ∧ (truthy v = true →
     _call_service service_name service_func phone
     = Returns (success_result service_name v))
  ∧ (∀ (other_func : pyfunc) (w : pyval),
       fn_call other_func (calling_convention other_func) phone = Returns w →
       truthy v = false → truthy w = false →
       _call_service service_name service_func phone
       = _call_service service_name other_func phone)
  ∧ (truthy PyNone = false ∧ truthy (PyInt 0) = false
     ∧ truthy (PyStr "") = false ∧ truthy (PyBool false) = false
     ∧ truthy (PyList []) = false).
Proof.
  intros Hcall. unfold _call_service. rewrite Hcall.
  split_and!; try reflexivity.
  - by intros ->.
  - by intros ->.
  - intros other_func w Hother Hv Hw. by rewrite Hother, Hv, Hw.
Qed.

(** ** The collection loop *)

Lemma submit_from_invoker sched phone entry :
  from_invoker (submit sched phone entry).
Proof. intros d Hd. simpl in Hd. by eapply _call_service_one_field. Qed.

Lemma exactly_one_field_status d :
  exactly_one_field d → is_Some (d !! "status").
Proof. intros [(-> & _)|(-> & _)]; eauto. Qed.

Lemma filter_length_Permutation {A} (p : A → bool) (l k : list A) :
  l ≡ₚ k → length (List.filter p l) = length (List.filter p k).
Proof.
  induction 1 as [|x l k _ IH|x y l|l k m _ IH1 _ IH2]; simpl.
  - done.
  - destruct (p x); simpl; by rewrite IH.
  - by destruct (p x), (p y).
  - by rewrite IH1.
Qed.

Lemma filter_length_complement {A} (p : A → bool) (l : list A) :
  (length (List.filter p l) + length (List.filter (λ x, negb (p x)) l))%nat
  = length l.
Proof. induction l as [|x l IH]; [done|]. simpl. destruct (p x); simpl; lia. Qed.

Lemma collect_one_spec (t t' : tally) (f : future) :
  from_invoker f → collect_one t f = Returns t' →
  t_success t' = t_success t + (if fut_success f then 1 else 0)
  ∧ t_error t' = t_error t + (if fut_success f then 0 else 1)
  ∧ ∃ d, t_results t' = t_results t ++ [d] ∧ exactly_one_field d.
Proof.
  intros Hf. unfold collect_one, fut_success.
  destruct (fut_outcome f) as [d|e] eqn:Hout.
  - pose proof (Hf d Hout) as Hd.
    destruct (exactly_one_field_status d Hd) as [st Hst]. rewrite Hst.
    destruct (eq_str st "success"); intros [= <-]; simpl;
      (split_and!; [lia|lia|eauto]).
  - destruct (exn_is_Exception e); [|done]. intros [= <-]. simpl.
    split_and!; [lia|lia|]. eexists. split; [done|].
    apply error_result_one_field.
Qed.

Lemma collect_one_returns (t : tally) (f : future) :
  fut_fatal f = false → ∃ t', collect_one t f = Returns t'.
Proof.
  unfold fut_fatal, collect_one. destruct (fut_outcome f) as [d|e].
  - intros _. destruct (d !! "status") as [st|]; [|eauto].
    destruct (eq_str st "success"); eauto.
  - destruct (exn_is_Exception e); [eauto|done].
Qed.

Lemma collect_one_fatal (t : tally) (f : future) :
  fut_fatal f = true → ∃ e, collect_one t f = Raises e ∧ exn_is_Exception e = false.
Proof.
  unfold fut_fatal, collect_one. destruct (fut_outcome f) as [d|e]; [done|].
  destruct (exn_is_Exception e) eqn:He; [done|]. intros _. by exists e.
Qed.

Lemma collect_spec (fs : list future) (t t' : tally) :
  Forall from_invoker fs → collect t fs = Returns t' →
  t_success t' = t_success t + Z.of_nat (length (List.filter fut_success fs))
  ∧ t_error t'
    = t_error t + Z.of_nat (length (List.filter (λ f, negb (fut_success f)) fs))
  ∧ ∃ ds, t_results t' = t_results t ++ ds
          ∧ length ds = length fs
          ∧ Forall exactly_one_field ds.
Proof.
  intros Hfs. revert t. induction Hfs as [|f fs Hf _ IH]; intros t; simpl.
  - intros [= <-]. split_and!; [lia|lia|]. exists [].
    by rewrite app_nil_r.
  - destruct (collect_one t f) as [t1|e] eqn:Hone; [|done].
    intros Hrest. apply IH in Hrest as (Hs & He & ds & Hres & Hlen & Hds).
    apply collect_one_spec in Hone as (Hs1 & He1 & d & Hres1 & Hd); [|done].
    split_and!.
    + destruct (fut_success f); simpl; lia.
    + destruct (fut_success f); simpl; lia.
    + exists (d :: ds). rewrite Hres, Hres1, <- app_assoc. simpl.
      split_and!; [done|lia|by constructor].
Qed.

Lemma collect_returns (fs : list future) (t : tally) :
  Forall (λ f, fut_fatal f = false) fs → ∃ t', collect t fs = Returns t'.
Proof.
  intros Hfs. revert t. induction Hfs as [|f fs Hf _ IH]; intros t; simpl.
  - eauto.
  - destruct (collect_one_returns t f Hf) as [t1 ->]. apply IH.
Qed.

(** ** [as_completed] *)

Lemma as_completed_finished (fs : list future) (timeout : nat) :
  (as_completed fs timeout).1
  ≡ₚ filter (λ f, (fut_done_at f ≤ timeout)%nat) fs.
Proof. apply merge_sort_Permutation. Qed.

Lemma as_completed_all_done (fs : list future) (timeout : nat) :
  Forall (λ f, (fut_done_at f ≤ timeout)%nat) fs →
  (as_completed fs timeout).1 ≡ₚ fs ∧ (as_completed fs timeout).2 = None.
Proof.
  intros Hall. split.
  - rewrite as_completed_finished.
    induction Hall as [|f fs Hf _ IH]; [done|].
    rewrite filter_cons_True by done. by rewrite IH.
  - unfold as_completed. simpl.
    replace (filter (λ f, ¬ (fut_done_at f ≤ timeout)%nat) fs) with (@nil future);
      [done|].
    induction Hall as [|f fs Hf _ IH]; [done|].
    rewrite filter_cons_False by (intros Hn; by apply Hn). done.
Qed.

Lemma as_completed_pending (fs : list future) (timeout : nat) :
  ¬ Forall (λ f, (fut_done_at f ≤ timeout)%nat) fs →
  ∃ msg, (as_completed fs timeout).2 = Some (TimeoutError msg).
Proof.
  intros Hnot. unfold as_completed. simpl.
  destruct (filter (λ f, ¬ (fut_done_at f ≤ timeout)%nat) fs) as [|p ps] eqn:Hp;
    [|eauto].
  exfalso. apply Hnot. apply Forall_forall. intros f Hf.
  destruct (decide (fut_done_at f ≤ timeout)%nat) as [|Hlate]; [done|].
  exfalso. by eapply (filter_nil_not_elem_of _ _ f Hp).
Qed.

Lemma as_completed_timed_out_None (fs : list future) (timeout : nat) :
  (as_completed fs timeout).2 = None →
  Forall (λ f, (fut_done_at f ≤ timeout)%nat) fs.
Proof.
  intros Hnone.
  destruct (decide (Forall (λ f, (fut_done_at f ≤ timeout)%nat) fs)) as [|Hnot];
    [done|].
  apply as_completed_pending in Hnot as [msg Hmsg]. congruence.
Qed.

(** ** The batch dispatcher *)

Lemma fut_success_submit sched target entry :
  fut_success (submit sched target entry) = negb (raises target entry).
Proof.
  unfold fut_success, raises, submit, _call_service. simpl.
  destruct (fn_call _ _ _) as [v|e].
  - by destruct (success_result_fields entry.1
                   (if truthy v then v else PyStr "SMS sent")) as (_ & -> & _).
  - destruct (exn_is_Exception e); [|done].
    by destruct (error_result_fields entry.1 (exn_str e)) as (_ & -> & _).
Qed.

Lemma fut_fatal_submit sched target entry :
  raises_only_Exception target entry →
  fut_fatal (submit sched target entry) = false.
Proof.
  unfold fut_fatal, raises_only_Exception, submit, _call_service. simpl.
  intros Hexc. destruct (fn_call _ _ _) as [v|e]; [done|].
  by rewrite (Hexc e eq_refl).
Qed.

Lemma filter_length_fmap {A B} (p : B → bool) (f : A → B) (l : list A) :
  length (List.filter p (f <$> l)) = length (List.filter (λ x, p (f x)) l).
Proof.
  induction l as [|x l IH]; [done|]. rewrite fmap_cons. simpl.
  destruct (p (f x)); simpl; by rewrite IH.
Qed.

Lemma filter_length_ext {A} (p q : A → bool) (l : list A) :
  (∀ x, p x = q x) → length (List.filter p l) = length (List.filter q l).
Proof.
  intros Hpq. induction l as [|x l IH]; [done|]. simpl.
  rewrite Hpq. destruct (q x); simpl; lia.
Qed.

(** What a batch that returns has gone through. *)
Lemma send_sms_batch_returns_inv self sched target amount g br g' :
  send_sms_batch self sched target amount g = (Returns br, g') →
  ∃ selected finished,
    get_random_services self amount g = (Returns selected, g')
    ∧ Forall (λ entry, (sched entry.1 ≤ config.REQUEST_TIMEOUT)%nat) selected
    ∧ finished ≡ₚ submit sched target <$> selected
    ∧ collect (mkTally [] 0 0) finished
      = Returns (mkTally (results br) (success_count br) (error_count br))
    ∧ phone br = target
    ∧ requested br = amount
    ∧ total_services br = Z.of_nat (length selected).
Proof.
  unfold send_sms_batch.
  destruct (get_random_services self amount g) as [[selected|e] g1]; [|done].
  destruct (as_completed _ _) as [finished timed_out] eqn:Hac.
  destruct (collect _ finished) as [t|e] eqn:Hcol; [|done].
  destruct timed_out as [e|]; [done|]. intros [= <- <-]. simpl.
  pose proof (as_completed_timed_out_None (submit sched target <$> selected)
                config.REQUEST_TIMEOUT) as Hdone.
  rewrite Hac in Hdone. specialize (Hdone eq_refl).
  pose proof (as_completed_all_done _ _ Hdone) as [Hperm _].
  rewrite Hac in Hperm. simpl in Hperm.
  exists selected, finished. split_and!; try done.
  - apply Forall_fmap in Hdone. exact Hdone.
  - by destruct t.
Qed.

(** When every selected adapter is done by the deadline and raises nothing
    but [Exception]s, the batch returns, and counts the adapters that
    raised as errors and the others as successes. *)
Lemma send_sms_batch_returns self sched target amount g selected g' :
  get_random_services self amount g = (Returns selected, g') →
  Forall (λ entry, (sched entry.1 ≤ config.REQUEST_TIMEOUT)%nat) selected →
  Forall (raises_only_Exception target) selected →
  ∃ br, send_sms_batch self sched target amount g = (Returns br, g')
        ∧ error_count br
          = Z.of_nat (length (List.filter (raises target) selected))
        ∧ success_count br
          = Z.of_nat (length selected)
            - Z.of_nat (length (List.filter (raises target) selected)).
Proof.
  intros Hsel Hdone Hexc. unfold send_sms_batch. rewrite Hsel.
  assert (Forall (λ f, (fut_done_at f ≤ config.REQUEST_TIMEOUT)%nat)
            (submit sched target <$> selected)) as Hdone'.
  { by apply Forall_fmap. }
  pose proof (as_completed_all_done _ _ Hdone') as [Hperm Hnone].
  destruct (as_completed _ _) as [finished timed_out]. simpl in Hperm, Hnone.
  subst timed_out.
  assert (Forall (λ f, fut_fatal f = false) finished) as Hfatal.
  { rewrite Hperm. apply Forall_fmap.
    eapply Forall_impl; [exact Hexc|]. intros entry. apply fut_fatal_submit. }
  assert (Forall from_invoker finished) as Hinv.
  { rewrite Hperm. apply Forall_fmap, Forall_forall.
    intros entry _. apply submit_from_invoker. }
  destruct (collect_returns finished (mkTally [] 0 0) Hfatal) as [t Hcol].
  rewrite Hcol. eexists. split; [done|]. simpl.
  apply collect_spec in Hcol as (Hs & He & _); [|done]. simpl in Hs, He.
  assert (length (List.filter (λ f, negb (fut_success f)) finished)
          = length (List.filter (raises target) selected)) as Herr.
  { rewrite (filter_length_Permutation _ _ _ Hperm), filter_length_fmap.
    apply filter_length_ext. intros entry.
    rewrite fut_success_submit. by destruct (raises target entry). }
  pose proof (filter_length_complement fut_success finished) as Hsum.
  pose proof (Permutation_length Hperm) as Hlen.
  rewrite length_fmap in Hlen. lia.
Qed.

(** When some selected adapter is not done by the deadline, the batch
    does not return: the iteration raises, at the latest the
    [TimeoutError] of [as_completed]. *)
Lemma send_sms_batch_deadline self sched target amount g selected g' :
  get_random_services self amount g = (Returns selected, g') →
  ¬ Forall (λ entry, (sched entry.1 ≤ config.REQUEST_TIMEOUT)%nat) selected →
  ∃ e, send_sms_batch self sched target amount g = (Raises e, g').
Proof.
  intros Hsel Hlate. unfold send_sms_batch. rewrite Hsel.
  destruct (as_completed_pending (submit sched target <$> selected)
              config.REQUEST_TIMEOUT) as [msg Hmsg].
  { intros Hall. apply Hlate. by apply Forall_fmap in Hall. }
  destruct (as_completed _ _) as [finished timed_out]. simpl in Hmsg. subst.
  destruct (collect _ finished); eauto.
Qed.

(** C4. A batch result that [send_sms_batch phone amount] returns has
    [success_count + error_count = len(results)], [requested = amount],
    and [total_services] equal to the number of selected adapters, which
    is [min(amount, size())]: three for an amount of five against a registry
    of three.  A batch that returns has collected every submitted future,
    so [total_services = len(results)]. *)
Theorem batch_result_invariants
    (self : SMSServiceLoader) (sched : schedule) (target : string)
    (amount : Z) (g : rng) (br : BatchResult) (g' : rng) :
  send_sms_batch self sched target amount g = (Returns br, g') →
  success_count br + error_count br = Z.of_nat (length (results br))
  ∧ requested br = amount
  ∧ (∃ selected, get_random_services self amount g = (Returns selected, g')
                 ∧ total_services br = Z.of_nat (length selected))
  ∧ total_services br = Z.min amount (get_service_count self)
  ∧ (amount = 5 → get_service_count self = 3 → total_services br = 3)
  ∧ total_services br = Z.of_nat (length (results br)).
Proof.
  intros Hret.
  apply send_sms_batch_returns_inv in Hret
    as (selected & finished & Hsel & Hdone & Hperm & Hcol & _ & Hreq & Htot).
  assert (Forall from_invoker finished) as Hinv.
  { rewrite Hperm. apply Forall_fmap, Forall_forall.
    intros entry _. apply submit_from_invoker. }
  apply collect_spec in Hcol as (Hs & He & ds & Hres & Hlen & _); [|done].
  simpl in Hs, He, Hres. subst ds.
  pose proof (filter_length_complement fut_success finished) as Hsum.
  pose proof (Permutation_length Hperm) as Hpl. rewrite length_fmap in Hpl.
  assert (total_services br = Z.min amount (get_service_count self)) as Hmin.
  { destruct (Z.lt_ge_cases amount 0) as [Hneg|Hpos].
    - rewrite get_random_services_negative in Hsel by done. discriminate.
    - destruct (get_random_services_spec self amount g Hpos)
        as (selected' & g'' & Hsel' & Hlen' & _).
      rewrite Hsel in Hsel'. injection Hsel' as <- <-. lia. }
  split_and!; [lia|done|by exists selected|done|lia|lia].
Qed.

(** C7 (batch and single dispatch). Every result in the list of a returned
    batch, every result the collection loop has gathered from submitted
    futures, and every result returned by [send_sms_single], has exactly
    one of the fields ["result"] and ["error"]: ["result"] when its status
    is ["success"], ["error"] when it is ["error"]. *)
Theorem results_have_exactly_one_field :
  (∀ self sched target amount g br g',
     send_sms_batch self sched target amount g = (Returns br, g') →
     Forall exactly_one_field (results br))
  ∧ (∀ sched target entries t,
       collect (mkTally [] 0 0) (submit sched target <$> entries) = Returns t →
       Forall exactly_one_field (t_results t))
  ∧ (∀ str_lower self target service_name d,
       send_sms_single str_lower self target service_name = Returns d →
       exactly_one_field d).
Proof.
  split_and!.
  - intros self sched target amount g br g' Hret.
    apply send_sms_batch_returns_inv in Hret
      as (selected & finished & _ & _ & Hperm & Hcol & _).
    apply collect_spec in Hcol as (_ & _ & ds & Hres & _ & Hds).
    + simpl in Hres. by subst ds.
    + rewrite Hperm. apply Forall_fmap, Forall_forall.
      intros entry _. apply submit_from_invoker.
  - intros sched target entries t Hcol.
    apply collect_spec in Hcol as (_ & _ & ds & Hres & _ & Hds).
    + simpl in Hres. by rewrite Hres.
    + apply Forall_fmap, Forall_forall.
      intros entry _. apply submit_from_invoker.
  - intros str_lower self target service_name d. unfold send_sms_single.
    destruct (List.filter _ _) as [|[service_key service_func] rest].
    + intros [= <-]. apply not_found_result_one_field.
    + apply _call_service_one_field.
Qed.

(** C2, as the code has it. An exception raised by the adapter that is an
    instance of [Exception] is caught in [_call_service] and becomes the
    error result with its message.  When every selected adapter is done by
    the deadline and raises nothing but such exceptions, the batch returns,
    with as many errors as adapters that raised and the other adapters as
    successes: one error and [N - 1] successes when exactly one raised. *)
Theorem Exception_becomes_error_result :
  (∀ service_name service_func target e,
     fn_call service_func (calling_convention service_func) target = Raises e →
     exn_is_Exception e = true →
     _call_service service_name service_func target
     = Returns (error_result service_name (exn_str e)))
  ∧ (∀ self sched target amount g selected g',
       get_random_services self amount g = (Returns selected, g') →
       Forall (λ entry, (sched entry.1 ≤ config.REQUEST_TIMEOUT)%nat) selected →
       Forall (raises_only_Exception target) selected →
       ∃ br, send_sms_batch self sched target amount g = (Returns br, g')
             ∧ error_count br
               = Z.of_nat (length (List.filter (raises target) selected))
             ∧ success_count br
               = Z.of_nat (length selected)
                 - Z.of_nat (length (List.filter (raises target) selected))
             ∧ (length (List.filter (raises target) selected) = 1%nat →
                error_count br = 1
                ∧ success_count br = Z.of_nat (length selected) - 1)).
Proof.
  split.
  - intros service_name service_func target e Hcall Hexc.
    unfold _call_service. by rewrite Hcall, Hexc.
  - intros self sched target amount g selected g' Hsel Hdone Hexc.
    destruct (send_sms_batch_returns self sched target amount g selected g'
                Hsel Hdone Hexc) as (br & Hret & Herr & Hsucc).
    exists br. split_and!; [done..|].
    intros Hone. rewrite Herr, Hsucc, Hone. done.
Qed.

(** ** Single dispatch *)

Lemma append_cons (c : ascii) (a b : string) :
  String c a +:+ b = String c (a +:+ b).
Proof. reflexivity. Qed.

Lemma prefix_spec (a b : string) :
  String.prefix a b = true ↔ ∃ post, b = a +:+ post.
Proof.
  revert b. induction a as [|c a IH]; intros [|c' b]; simpl.
  - split; [intros _; by exists ""|done].
  - split; [intros _; by exists (String c' b)|done].
  - split; [done|]. by intros [post Hpost].
  - destruct (ascii_dec c c') as [->|Hne].
    + rewrite IH. split; intros [post Hpost]; exists post;
        rewrite append_cons in *; congruence.
    + split; [done|]. intros [post Hpost]. rewrite append_cons in Hpost.
      congruence.
Qed.

Lemma contains_spec (needle hay : string) :
  contains needle hay = true ↔ is_substring needle hay.
Proof.
  unfold is_substring. induction hay as [|c hay IH].
  - cbn [contains]. rewrite orb_false_r, prefix_spec. split.
    + intros [post Hpost]. by exists "", post.
    + intros ([|c pre] & post & Hpost); [by exists post|done].
  - cbn [contains]. rewrite orb_true_iff, prefix_spec, IH. split.
    + intros [[post Hpost]|(pre & post & Hpost)].
      * by exists "", post.
      * exists (String c pre), post. rewrite append_cons. by rewrite Hpost.
    + intros ([|c' pre] & post & Hpost).
      * left. by exists post.
      * right. exists pre, post. rewrite append_cons in Hpost. congruence.
Qed.

Lemma name_matches_spec (str_lower : string → string)
    (service_name : string) (entry : string * pyfunc) :
  name_matches str_lower service_name entry = true
  ↔ is_substring (str_lower service_name) (str_lower entry.1).
Proof. apply contains_spec. Qed.

Lemma filter_first_match {A} (p : A → bool) (before after : list A) (x : A) :
  (∀ y, y ∈ before → p y = false) → p x = true →
  List.filter p (before ++ x :: after) = x :: List.filter p after.
Proof.
  intros Hbefore Hx. induction before as [|y before IH]; simpl.
  - by rewrite Hx.
  - rewrite (Hbefore y) by apply list_elem_of_here.
    apply IH. intros z Hz. apply Hbefore. by apply list_elem_of_further.
Qed.

Lemma filter_nil_iff {A} (p : A → bool) (l : list A) :
  List.filter p l = [] ↔ ∀ x, x ∈ l → p x = false.
Proof.
  induction l as [|x l IH]; simpl.
  - split; [|done]. intros _ y Hy. by apply elem_of_nil in Hy.
  - destruct (p x) eqn:Hx.
    + split; [done|]. intros Hall.
      rewrite (Hall x) in Hx by apply list_elem_of_here. done.
    + rewrite IH. split.
      * intros Hall y [->|Hy]%elem_of_cons; eauto.
      * intros Hall y Hy. apply Hall. by apply list_elem_of_further.
Qed.

(** C5, as the code has it. [send_sms_single phone fragment] returns the
    not-found error exactly when the lowered fragment occurs in no lowered
    key of the registry, both lowered by [str.lower]; when it occurs in
    some, the call is that of [_call_service] on the first such entry in
    the order of the dictionary, which is the order in which the keys were
    first set.  This holds whatever [str.lower] computes. *)
Theorem send_sms_single_first_match
    (str_lower : string → string)
    (self : SMSServiceLoader) (target service_name : string) :
  (send_sms_single str_lower self target service_name
   = Returns (not_found_result service_name)
   ↔ ∀ entry, entry ∈ services self →
              ¬ is_substring (str_lower service_name) (str_lower entry.1))
  ∧ (∀ before service_key service_func after,
       services self = before ++ (service_key, service_func) :: after →
       is_substring (str_lower service_name) (str_lower service_key) →
       (∀ entry, entry ∈ before →
                 ¬ is_substring (str_lower service_name) (str_lower entry.1)) →
       send_sms_single str_lower self target service_name
       = _call_service service_key service_func target).
Proof.
  split.
  - unfold send_sms_single.
    destruct (List.filter _ _) as [|[service_key service_func] rest] eqn:Hfilter.
    + split; [|done]. intros _ entry Hentry Hsub.
      apply name_matches_spec in Hsub.
      rewrite (proj1 (filter_nil_iff _ _) Hfilter entry Hentry) in Hsub. done.
    + split.
      * intros Hcall. apply _call_service_has_service in Hcall.
        destruct (not_found_result_fields service_name) as (Hnone & _).
        congruence.
      * intros Hnone. exfalso.
        assert ((service_key, service_func)
                ∈ List.filter (name_matches str_lower service_name)
                    (services self)) as Hin.
        { rewrite Hfilter. apply list_elem_of_here. }
        apply list_elem_of_In, filter_In in Hin as [Hin Hmatch].
        apply (Hnone (service_key, service_func)).
        -- by apply list_elem_of_In.
        -- by apply name_matches_spec in Hmatch.
  - intros before service_key service_func after Hsplit Hmatch Hbefore.
    unfold send_sms_single. rewrite Hsplit, filter_first_match; [done| |].
    + intros entry Hentry. apply not_true_is_false. intros Hm.
      apply name_matches_spec in Hm. by apply (Hbefore entry).
    + by apply name_matches_spec.
Qed.

(** ** Loading *)

(** An invariant of the loader that registering a function keeps is kept
    by the loop over the functions, wherever it ends. *)
Lemma register_functions_keeps (P : SMSServiceLoader → Prop)
    service_file functions self :
  (∀ self' func_name func,
     (func_name, Returns func) ∈ functions →
     startswith_underscore func_name = false →
     P self' → P (register_function service_file self' func_name func)) →
  P self → P (register_functions service_file self functions).2.
Proof.
  intros Hstep.
  assert (∀ members, members ⊆ functions →
          ∀ self', P self' →
                   P (register_functions service_file self' members).2) as Hall.
  { induction members as [|[func_name inspection] members IH];
      intros Hsub self' Hself'; simpl; [done|].
    assert (members ⊆ functions) as Hrest.
    { intros x Hx. apply Hsub. by apply list_elem_of_further. }
    destruct (startswith_underscore func_name) eqn:Hpriv; [by apply IH|].
    destruct inspection as [func|e]; [|done].
    apply IH; [done|]. apply Hstep; [|done..].
    apply Hsub, list_elem_of_here. }
  by apply Hall.
Qed.

Lemma load_service_file_keeps (P : SMSServiceLoader → Prop)
    env service_file self :
  (∀ functions self' func_name func,
     import_functions env service_file = Returns functions →
     (func_name, Returns func) ∈ functions →
     startswith_underscore func_name = false →
     P self' → P (register_function service_file self' func_name func)) →
  P self → P (load_service_file env service_file self).2.
Proof.
  intros Hstep Hself. unfold load_service_file.
  destruct (import_functions env service_file) as [functions|e] eqn:Himp;
    [|done].
  pose proof (register_functions_keeps P service_file functions self
                (λ self' func_name func, Hstep functions self' func_name func
                                           eq_refl) Hself) as Hkept.
  by destruct (register_functions service_file self functions) as [[[]|e] self'].
Qed.

Lemma load_files_keeps (P : SMSServiceLoader → Prop) env files self log :
  (∀ service_file functions self' func_name func,
     service_file ∈ files →
     import_functions env service_file = Returns functions →
     (func_name, Returns func) ∈ functions →
     startswith_underscore func_name = false →
     P self' → P (register_function service_file self' func_name func)) →
  P self → P (load_files env files self log).1.2.
Proof.
  revert self log.
  induction files as [|service_file rest IH]; intros self log Hstep Hself;
    simpl; [done|].
  pose proof (load_service_file_keeps P env service_file self
                (λ functions self' func_name func,
                   Hstep service_file functions self' func_name func
                     (list_elem_of_here _ _)) Hself) as Hkept.
  assert (∀ service_file' functions self' func_name func,
            service_file' ∈ rest →
            import_functions env service_file' = Returns functions →
            (func_name, Returns func) ∈ functions →
            startswith_underscore func_name = false →
            P self' → P (register_function service_file' self' func_name func))
    as Hrest.
  { intros service_file' functions self' func_name func Hin.
    apply Hstep. by apply list_elem_of_further. }
  destruct (load_service_file env service_file self) as [[functions|e] self'].
  - by apply IH.
  - destruct (exn_is_Exception e); [by apply IH|done].
Qed.

Lemma register_function_wf service_file self func_name func :
  dict_wf (services self) →
  dict_wf (services (register_function service_file self func_name func)).
Proof.
  intros Hwf. unfold register_function.
  destruct (has_param "phone" func || has_param "sdt" func)%bool; [|done].
  simpl. by apply dict_set_wf.
Qed.

(** The log does not steer the loading. *)
Lemma load_files_log_irrelevant env files self log1 log2 :
  (load_files env files self log1).1 = (load_files env files self log2).1.
Proof.
  revert self log1 log2.
  induction files as [|service_file rest IH]; intros self log1 log2; simpl.
  - done.
  - destruct (load_service_file env service_file self) as [[functions|e] self'].
    + apply IH.
    + destruct (exn_is_Exception e); [apply IH|done].
Qed.

Lemma load_files_app env before after self log :
  load_files env (before ++ after) self log
  = match load_files env before self log with
    | (Returns _, self', log') => load_files env after self' log'
    | (Raises e, self', log') => (Raises e, self', log')
    end.
Proof.
  revert self log.
  induction before as [|service_file rest IH]; intros self log; simpl.
  - done.
  - destruct (load_service_file env service_file self) as [[functions|e] self'].
    + apply IH.
    + destruct (exn_is_Exception e); [apply IH|done].
Qed.

(** A source whose import or enumeration raises an [Exception] leaves the
    loader as it is. *)
Lemma load_files_skip env service_file rest self log e :
  import_functions env service_file = Raises e →
  exn_is_Exception e = true →
  load_files env (service_file :: rest) self log
  = load_files env rest self
      (log ++ ["Error loading " +:+ service_file +:+ ": " +:+ exn_str e]).
Proof.
  intros Himp Hexc. simpl. unfold load_service_file. by rewrite Himp, Hexc.
Qed.

Lemma load_files_without env before service_file after self log e :
  import_functions env service_file = Raises e →
  exn_is_Exception e = true →
  (load_files env (before ++ service_file :: after) self log).1
  = (load_files env (before ++ after) self log).1.
Proof.
  intros Himp Hexc. rewrite !load_files_app.
  destruct (load_files env before self log) as [[[[]|e'] self'] log']; [|done].
  rewrite (load_files_skip _ _ _ _ _ e) by done.
  apply load_files_log_irrelevant.
Qed.

Lemma load_files_wf env files self log :
  dict_wf (services self) →
  dict_wf (services (load_files env files self log).1.2).
Proof.
  apply (load_files_keeps (λ self', dict_wf (services self'))).
  intros service_file functions self' func_name func _ _ _ _.
  apply register_function_wf.
Qed.

Lemma load_services_from_loader env files self log :
  (load_services_from env files self log).1.2
  = (load_files env files self (log ++ ["Loading SMS services..."])).1.2.
Proof.
  unfold load_services_from.
  by destruct (load_files _ _ _ _) as [[[[]|e] self'] log'].
Qed.

(** A registry that was loaded is a dictionary. *)
Lemma load_all_services_wf env self log :
  dict_wf (services self) →
  dict_wf (services (load_all_services env self log).1.2).
Proof.
  intros Hwf. unfold load_all_services.
  rewrite load_services_from_loader. by apply load_files_wf.
Qed.

(** The loader that a first call of [get_loader] binds has a registry with
    distinct keys. *)
Lemma get_loader_registry_wf env w loader :
  _loader w = None →
  _loader (get_loader env w).2 = Some loader →
  dict_wf (services loader).
Proof.
  unfold get_loader. intros ->.
  pose proof (load_all_services_wf env new_loader (logged w)) as Hwf.
  destruct (load_all_services _ _ _) as [[[d|e] self'] log'];
    simpl in *; intros [= <-]; apply Hwf; constructor.
Qed.

(** *** A source that fails while its functions are inspected *)

Lemma append_inj_l (a b c : string) : a +:+ b = a +:+ c → b = c.
Proof.
  induction a as [|ch a IH]; [done|]. rewrite !append_cons.
  intros [= Heq]. by apply IH.
Qed.

Lemma import_functions_with_functions env service_file functions :
  import_functions (with_functions env service_file functions) service_file
  = Returns functions.
Proof.
  unfold import_functions, with_functions. by rewrite String.eqb_refl.
Qed.

Lemma import_functions_with_functions_ne env service_file functions other :
  other ≠ service_file →
  import_functions (with_functions env service_file functions) other
  = import_functions env other.
Proof.
  intros Hne. unfold import_functions, with_functions.
  destruct (String.eqb_spec ("services." +:+ other)
              ("services." +:+ service_file)) as [Heq|_]; [|done].
  by apply append_inj_l in Heq.
Qed.

Lemma register_functions_app service_file self earlier later :
  register_functions service_file self (earlier ++ later)
  = match register_functions service_file self earlier with
    | (Returns _, self') => register_functions service_file self' later
    | (Raises e, self') => (Raises e, self')
    end.
Proof.
  revert self.
  induction earlier as [|[func_name inspection] earlier IH]; intros self;
    simpl; [done|].
  destruct (startswith_underscore func_name); [apply IH|].
  destruct inspection as [func|e]; [apply IH|done].
Qed.

(** The loop gets through functions that can all be inspected. *)
Lemma register_functions_inspectable service_file self functions :
  all_inspectable functions →
  (register_functions service_file self functions).1 = Returns ().
Proof.
  revert self.
  induction functions as [|[func_name inspection] functions IH];
    intros self Hall; simpl; [done|].
  assert (all_inspectable functions) as Hrest.
  { intros name e Hin. apply (Hall name e). by apply list_elem_of_further. }
  destruct (startswith_underscore func_name) eqn:Hpriv; [by apply IH|].
  destruct inspection as [func|e]; [by apply IH|].
  rewrite (Hall func_name e) in Hpriv by apply list_elem_of_here. done.
Qed.

(** Where [inspect.signature] raises on a public function, the loop ends
    with the loader that the functions before it have made. *)
Lemma register_functions_stops service_file self earlier func_name e later :
  all_inspectable earlier →
  startswith_underscore func_name = false →
  register_functions service_file self (earlier ++ (func_name, Raises e) :: later)
  = (Raises e, (register_functions service_file self earlier).2).
Proof.
  intros Hall Hpub. rewrite register_functions_app.
  pose proof (register_functions_inspectable service_file self earlier Hall)
    as Hthrough.
  destruct (register_functions service_file self earlier) as [[[]|e'] self'];
    [|done].
  simpl. by rewrite Hpub.
Qed.

Lemma load_service_file_stops env service_file self functions earlier
    func_name e later :
  import_functions env service_file = Returns functions →
  functions = earlier ++ (func_name, Raises e) :: later →
  all_inspectable earlier →
  startswith_underscore func_name = false →
  load_service_file env service_file self
  = (Raises e, (register_functions service_file self earlier).2)
  ∧ (load_service_file (with_functions env service_file earlier)
       service_file self).2
    = (register_functions service_file self earlier).2
  ∧ ∃ listed,
      (load_service_file (with_functions env service_file earlier)
         service_file self).1 = Returns listed.
Proof.
  intros Himp -> Hall Hpub. unfold load_service_file.
  rewrite Himp, import_functions_with_functions.
  rewrite register_functions_stops by done.
  pose proof (register_functions_inspectable service_file self earlier Hall)
    as Hthrough.
  destruct (register_functions service_file self earlier) as [[[]|e'] self'];
    [|done].
  split_and!; [done|done|by eexists].
Qed.

Lemma load_files_truncated env service_file functions earlier func_name e
    later files self log1 log2 :
  import_functions env service_file = Returns functions →
  functions = earlier ++ (func_name, Raises e) :: later →
  all_inspectable earlier →
  startswith_underscore func_name = false →
  exn_is_Exception e = true →
  (load_files env files self log1).1
  = (load_files (with_functions env service_file earlier) files self log2).1.
Proof.
  intros Himp Hsplit Hall Hpub Hexc. revert self log1 log2.
  induction files as [|file rest IH]; intros self log1 log2; simpl; [done|].
  destruct (decide (file = service_file)) as [->|Hne].
  - destruct (load_service_file_stops env service_file self functions earlier
                func_name e later Himp Hsplit Hall Hpub)
      as (-> & Hself & listed & Hlisted).
    rewrite Hexc.
    destruct (load_service_file (with_functions env service_file earlier)
                service_file self) as [[listed'|e'] self']; [|done].
    simpl in Hself. subst self'. apply IH.
  - assert (load_service_file (with_functions env service_file earlier) file self
            = load_service_file env file self) as ->.
    { unfold load_service_file.
      by rewrite import_functions_with_functions_ne. }
    destruct (load_service_file env file self) as [[listed|e'] self'].
    + apply IH.
    + destruct (exn_is_Exception e'); [apply IH|done].
Qed.

(** C6, as the code has it. A service file that raises an [Exception]
    inside its [try] does not end the loading: the files after it are
    loaded as the files before it were.  When the exception comes from
    the import or from the enumeration of the functions,
    [load_all_services] ends as it does, and with the registry it has,
    when that file is left out of the list: the file adds no entry.  When
    it comes from [inspect.signature] on a public function of the file,
    [load_all_services] ends as it does, and with the registry it has,
    when the module holds only the functions before that one: what was
    registered before the failure stays, and nothing of the file is
    registered after it. *)
Theorem failing_source_is_skipped
    (env : import_env) (service_file : string)
    (self : SMSServiceLoader) (log : list string) (e : exn) :
  exn_is_Exception e = true →
  (∀ before after,
     config.SERVICE_FILES = before ++ service_file :: after →
     import_functions env service_file = Raises e →
     (load_all_services env self log).1
     = (load_services_from env (before ++ after) self log).1)
  ∧ (∀ functions earlier func_name later,
       import_functions env service_file = Returns functions →
       functions = earlier ++ (func_name, Raises e) :: later →
       all_inspectable earlier →
       startswith_underscore func_name = false →
       (load_all_services env self log).1
       = (load_all_services (with_functions env service_file earlier)
            self log).1).
Proof.
  intros Hexc. split.
  - intros before after Hfiles Himp.
    unfold load_all_services, load_services_from. rewrite Hfiles.
    pose proof (load_files_without env before service_file after self
                  (log ++ ["Loading SMS services..."]) e Himp Hexc) as Heq.
    destruct (load_files env (before ++ service_file :: after) _ _)
      as [[[[]|e1] self1] log1],
       (load_files env (before ++ after) _ _) as [[[[]|e2] self2] log2];
      simpl in Heq; by simplify_eq.
  - intros functions earlier func_name later Himp Hsplit Hall Hpub.
    unfold load_all_services, load_services_from.
    pose proof (load_files_truncated env service_file functions earlier
                  func_name e later config.SERVICE_FILES self
                  (log ++ ["Loading SMS services..."])
                  (log ++ ["Loading SMS services..."])
                  Himp Hsplit Hall Hpub Hexc) as Heq.
    destruct (load_files env config.SERVICE_FILES _ _)
      as [[[[]|e1] self1] log1],
       (load_files (with_functions env service_file earlier) _ _ _)
      as [[[[]|e2] self2] log2];
      simpl in Heq; by simplify_eq.
Qed.

(** ** The singleton *)










(** * The claims on the example inputs *)

Lemma registry3_wf : dict_wf (services registry3).
Proof.
  apply (bool_decide_unpack (NoDup (dict_keys (services registry3)))).
  vm_compute. exact I.
Defined.

Lemma get_random_services_distinct_witness :
  ∃ selected g',
    get_random_services registry3 5 draws = (Returns selected, g')
    ∧ Z.of_nat (length selected) = Z.min 5 (get_service_count registry3)
    ∧ NoDup (dict_keys selected)
    ∧ selected ⊆+ services registry3
    ∧ (get_service_count registry3 = 0 → selected = [])
    ∧ (5 > get_service_count registry3 →
       Z.of_nat (length selected) = get_service_count registry3).
Proof.
  apply (get_random_services_distinct registry3 5 draws).
  - exact registry3_wf.
  - lia.
Defined.

Lemma get_random_services_one_sided_clamp_witness :
  get_random_services registry3 (-1) draws
  = (Raises (ValueError "Sample larger than population or is negative"), draws)
  ∧ get_random_services registry3 5 draws
    = get_random_services registry3 (get_service_count registry3) draws.
Proof.
  pose proof (get_random_services_one_sided_clamp registry3 (-1) draws)
    as (_ & _ & Hneg & _).
  pose proof (get_random_services_one_sided_clamp registry3 5 draws)
    as (Hclamp & _).
  split.
  - apply Hneg. lia.
  - apply Hclamp. vm_compute. reflexivity.
Defined.

Lemma falsy_return_replaced_by_sentinel_witness :
  _call_service "smsvip_0_tiki" quiet "0912345678"
  = Returns (success_result "smsvip_0_tiki" (PyStr "SMS sent")).
Proof.
  apply (falsy_return_replaced_by_sentinel
           "smsvip_0_tiki" "0912345678" quiet PyNone); reflexivity.
Defined.

Lemma send_sms_batch_registry3 :
  send_sms_batch registry3 prompt "0912345678" 5 draws
  = (Returns batch3, λ i, draws (S (S (S i)))).
Proof. vm_compute. reflexivity. Qed.

Lemma batch_result_invariants_witness :
  success_count batch3 + error_count batch3 = Z.of_nat (length (results batch3))
  ∧ requested batch3 = 5
  ∧ (∃ selected,
       get_random_services registry3 5 draws
       = (Returns selected, λ i, draws (S (S (S i))))
       ∧ total_services batch3 = Z.of_nat (length selected))
  ∧ total_services batch3 = Z.min 5 (get_service_count registry3)
  ∧ (5 = 5 → get_service_count registry3 = 3 → total_services batch3 = 3)
  ∧ total_services batch3 = Z.of_nat (length (results batch3)).
Proof.
  apply (batch_result_invariants registry3 prompt "0912345678" 5 draws).
  vm_compute. reflexivity.
Defined.

Lemma results_have_exactly_one_field_witness :
  Forall exactly_one_field (results batch3)
  ∧ exactly_one_field (success_result "smsvip_0_tiki" (PyStr "SMS sent"))
  ∧ exactly_one_field (not_found_result "zalo").
Proof.
  pose proof results_have_exactly_one_field as (Hbatch & _ & Hsingle).
  split_and!.
  - apply (Hbatch registry3 prompt "0912345678" 5 draws batch3
             (λ i, draws (S (S (S i))))).
    vm_compute. reflexivity.
  - apply (Hsingle ascii_lower registry3 "0912345678" "TIKI").
    vm_compute. reflexivity.
  - apply (Hsingle ascii_lower registry3 "0912345678" "zalo").
    vm_compute. reflexivity.
Defined.

Lemma Exception_becomes_error_result_witness :
  _call_service "smsvip_1_fpt" refuses "0912345678"
  = Returns (error_result "smsvip_1_fpt" "connection refused")
  ∧ ∃ br, send_sms_batch registry3 prompt "0912345678" 5 draws
          = (Returns br, λ i, draws (S (S (S i))))
          ∧ error_count br = 1
          ∧ success_count br = 3 - 1.
Proof.
  pose proof Exception_becomes_error_result as (Hcall & Hbatch).
  split.
  - apply (Hcall "smsvip_1_fpt" refuses "0912345678"
             (mkExn "ConnectionError" true "connection refused"));
      reflexivity.
  - destruct (Hbatch registry3 prompt "0912345678" 5 draws
                [("smsvip_0_momo", sends); ("smsvip_1_fpt", refuses);
                 ("smsvip_0_tiki", quiet)]
                (λ i, draws (S (S (S i)))))
      as (br & Hret & _ & _ & Hone).
    + vm_compute. reflexivity.
    + repeat constructor; vm_compute; lia.
    + repeat constructor; intros e; vm_compute; intros [= <-]; reflexivity.
    + exists br. split; [exact Hret|]. apply Hone. vm_compute. reflexivity.
Defined.

(** C2, as it is stated, fails: an adapter that raises [SystemExit], which
    is no [Exception], is not turned into an error result; the exception
    leaves [_call_service], and a batch in which this adapter is the only
    one to raise, all calls being done in time, raises it too. *)
Lemma SystemExit_escapes_invoker_and_batch :
  fn_call exits (calling_convention exits) "0912345678" = Raises (SystemExit "1")
  ∧ _call_service "smsvip_2_exit" exits "0912345678" = Raises (SystemExit "1")
  ∧ _call_service "smsvip_2_exit" exits "0912345678"
    ≠ Returns (error_result "smsvip_2_exit" "1")
  ∧ length (List.filter (raises "0912345678") (services registry_with_exit)) = 1%nat
  ∧ (send_sms_batch registry_with_exit prompt "0912345678" 3 draws).1
    = Raises (SystemExit "1").
Proof. split_and!; try (vm_compute; reflexivity). discriminate. Qed.

(** C1, what the code does. Ten adapters are dispatched, nine are done
    after two seconds and one after thirty; [REQUEST_TIMEOUT] is ten.
    [as_completed] raises [TimeoutError] in the [for] statement, outside
    the [try] of the loop body, and [send_sms_batch] raises it: no batch
    result is returned. *)
Theorem deadline_raises_TimeoutError :
  get_service_count registry10 = 10
  ∧ length (List.filter (λ entry, Nat.leb (one_slow entry.1) config.REQUEST_TIMEOUT)
              (services registry10)) = 9%nat
  ∧ (send_sms_batch registry10 one_slow "0912345678" 10 draws).1
    = Raises (TimeoutError "1 (of 10) futures unfinished").
Proof. split_and!; vm_compute; reflexivity. Qed.

Lemma send_sms_single_first_match_witness :
  send_sms_single ascii_lower registry3 "0912345678" "0_T"
  = _call_service "smsvip_0_tiki" quiet "0912345678"
  ∧ send_sms_single ascii_lower registry3 "0912345678" "zalo"
    = Returns (not_found_result "zalo").
Proof.
  split.
  - pose proof (send_sms_single_first_match ascii_lower registry3
                  "0912345678" "0_T")
      as [_ Hfirst].
    apply (Hfirst [("smsvip_0_momo", sends)] "smsvip_0_tiki" quiet
             [("smsvip_1_fpt", refuses)]).
    + reflexivity.
    + apply contains_spec. vm_compute. reflexivity.
    + intros entry Hentry Hsub. apply contains_spec in Hsub.
      apply list_elem_of_singleton in Hentry as ->.
      vm_compute in Hsub. discriminate.
  - pose proof (send_sms_single_first_match ascii_lower registry3
                  "0912345678" "zalo")
      as [Hnone _].
    apply Hnone. intros entry Hentry Hsub. apply contains_spec in Hsub.
    repeat (apply elem_of_cons in Hentry as [->|Hentry];
            [vm_compute in Hsub; discriminate|]).
    by apply elem_of_nil in Hentry.
Defined.

(** C5, as it is stated, fails: the key [smsvip_0_ΑΣ] contains the
    fragment [Σ] as it stands, but [str.lower] turns the capital sigma
    that ends the key into the final sigma and the fragment into the
    other small sigma, so the lowered fragment does not occur in the
    lowered key and the answer is the not-found error. *)
Lemma literal_fragment_is_not_found :
  is_substring "Σ" "smsvip_0_ΑΣ"
  ∧ lower_with_final_sigma "Σ" = "σ"
  ∧ lower_with_final_sigma "smsvip_0_ΑΣ" = "smsvip_0_ας"
  ∧ send_sms_single lower_with_final_sigma registry_sigma "0912345678" "Σ"
    = Returns (not_found_result "Σ").
Proof.
  split_and!; try (vm_compute; reflexivity).
  exists "smsvip_0_Α", "". reflexivity.
Qed.

Lemma failing_source_is_skipped_witness :
  (load_all_services env_two_modules new_loader []).1
  = (load_services_from env_two_modules
       ["smsvip_0"; "smsvip_2"; "smsvip_3"; "smsvip_4"] new_loader []).1
  ∧ dict_keys (services (load_all_services env_two_modules new_loader []).1.2)
    = ["smsvip_0_momo"; "smsvip_2_viettel"]
  ∧ (load_all_services env_broken_signature new_loader []).1
    = (load_all_services
         (with_functions env_broken_signature "smsvip_0"
            [("alpha", Returns sends)]) new_loader []).1
  ∧ dict_keys (services (load_all_services env_broken_signature new_loader []).1.2)
    = ["smsvip_0_alpha"; "smsvip_2_viettel"].
Proof.
  pose proof (failing_source_is_skipped env_two_modules "smsvip_1" new_loader []
                (mkExn "ModuleNotFoundError" true
                   "No module named 'services.smsvip_1'") eq_refl)
    as (Himport & _).
  pose proof (failing_source_is_skipped env_broken_signature "smsvip_0"
                new_loader [] (ValueError "no signature found") eq_refl)
    as (_ & Hsignature).
  split_and!.
  - by apply (Himport ["smsvip_0"] ["smsvip_2"; "smsvip_3"; "smsvip_4"]).
  - vm_compute. reflexivity.
  - apply (Hsignature functions_with_broken [("alpha", Returns sends)]
             "beta" [("gamma", Returns sends)]).
    + reflexivity.
    + reflexivity.
    + intros func_name e Hin. apply list_elem_of_singleton in Hin. done.
    + reflexivity.
  - vm_compute. reflexivity.
Defined.

(** C6, as it is stated, fails in two ways.  When the import of
    [smsvip_1] raises [SystemExit], which is no [Exception], the file is
    not skipped: [load_all_services] raises, and the adapter of
    [smsvip_2], which is registered when [smsvip_1] is left out, is not.
    When [inspect.signature] raises on the second function of [smsvip_0],
    the file is logged as failed and the files after it are loaded, but
    its first function stays registered: the failing file has added an
    entry. *)
Lemma failing_source_aborts_or_keeps_entries :
  (config.SERVICE_FILES
   = ["smsvip_0"] ++ "smsvip_1" :: ["smsvip_2"; "smsvip_3"; "smsvip_4"]
   ∧ import_functions env_exit_on_import "smsvip_1" = Raises (SystemExit "1")
   ∧ (load_all_services env_exit_on_import new_loader []).1.1
     = Raises (SystemExit "1")
   ∧ (load_all_services env_exit_on_import new_loader []).1
     ≠ (load_services_from env_exit_on_import
          ["smsvip_0"; "smsvip_2"; "smsvip_3"; "smsvip_4"] new_loader []).1
   ∧ dict_keys (services (load_all_services env_exit_on_import new_loader []).1.2)
     = ["smsvip_0_momo"]
   ∧ dict_keys (services (load_services_from env_exit_on_import
                            ["smsvip_0"; "smsvip_2"; "smsvip_3"; "smsvip_4"]
                            new_loader []).1.2)
     = ["smsvip_0_momo"; "smsvip_2_viettel"])
  ∧ (import_functions env_broken_signature "smsvip_0"
     = Returns functions_with_broken
     ∧ load_service_file env_broken_signature "smsvip_0" new_loader
       = (Raises (ValueError "no signature found"),
          mkLoader [("smsvip_0_alpha", sends)] ["alpha"] config.MAX_WORKERS)
     ∧ "Error loading smsvip_0: no signature found"
       ∈ (load_all_services env_broken_signature new_loader []).2
     ∧ dict_keys (services (load_all_services env_broken_signature
                              new_loader []).1.2)
       = ["smsvip_0_alpha"; "smsvip_2_viettel"]
     ∧ dict_keys (services (load_services_from env_broken_signature
                              ["smsvip_1"; "smsvip_2"; "smsvip_3"; "smsvip_4"]
                              new_loader []).1.2)
       = ["smsvip_2_viettel"]).
Proof.
  split; split_and!; try (vm_compute; reflexivity).
  - intros Heq. apply (f_equal fst) in Heq. vm_compute in Heq. discriminate.
  - vm_compute. apply list_elem_of_further, list_elem_of_here.
Qed.


(** * Further properties of the loader *)

(** ** Dictionaries *)

Section dict_more.
Context {V : Type}.
Implicit Types (d : dict V) (k : string) (v : V).

Lemma elem_of_dict_set d k v (entry : string * V) :
  entry ∈ dict_set d k v → entry ∈ d ∨ entry = (k, v).
Proof.
  induction d as [|[k' v'] d IH]; simpl.
  - intros Hin. apply list_elem_of_singleton in Hin. by right.
  - destruct (String.eqb_spec k' k) as [->|Hne].
    + intros [->|Hin]%elem_of_cons; [by right|].
      left. by apply list_elem_of_further.
    + intros [->|Hin]%elem_of_cons.
      * left. apply list_elem_of_here.
      * destruct (IH Hin) as [Hd| ->]; [|by right].
        left. by apply list_elem_of_further.
Qed.

Lemma dict_set_keys_mono d k v k' :
  k' ∈ dict_keys d → k' ∈ dict_keys (dict_set d k v).
Proof.
  intros Hin. destruct (decide (k ∈ dict_keys d)) as [Hk|Hk].
  - by rewrite dict_set_present.
  - rewrite dict_set_fresh by done. unfold dict_keys in *.
    rewrite fmap_app. apply elem_of_app. by left.
Qed.

Lemma dict_set_key_in d k v : k ∈ dict_keys (dict_set d k v).
Proof.
  destruct (decide (k ∈ dict_keys d)) as [Hk|Hk].
  - by rewrite dict_set_present.
  - rewrite dict_set_fresh by done. unfold dict_keys.
    rewrite fmap_app. apply elem_of_app. right. apply list_elem_of_here.
Qed.

Lemma length_dict_set d k v :
  (length (dict_set d k v) ≤ S (length d))%nat.
Proof.
  induction d as [|[k' v'] d IH]; simpl; [lia|].
  destruct (String.eqb k' k); simpl; lia.
Qed.
End dict_more.

(** ** What loading registers *)

Lemma registered_from_mono env files files' entry :
  files ⊆ files' → registered_from env files entry →
  registered_from env files' entry.
Proof.
  intros Hsub (service_file & func_name & functions & Hin & Hrest).
  exists service_file, func_name, functions. split; [by apply Hsub|done].
Qed.

Lemma register_function_from env files service_file functions self
    func_name func :
  service_file ∈ files →
  import_functions env service_file = Returns functions →
  (func_name, Returns func) ∈ functions →
  startswith_underscore func_name = false →
  Forall (registered_from env files) (services self) →
  Forall (registered_from env files)
    (services (register_function service_file self func_name func)).
Proof.
  intros Hfile Himp Hmem Hpub Hself. unfold register_function.
  destruct (has_param "phone" func || has_param "sdt" func)%bool eqn:Hparam;
    [|done].
  simpl. apply Forall_forall. intros entry Hentry.
  apply elem_of_dict_set in Hentry as [Hold| ->].
  - by eapply (proj1 (Forall_forall _ _) Hself).
  - exists service_file, func_name, functions. split_and!; try done.
    unfold registrable. simpl. by rewrite Hpub, Hparam.
Qed.

Lemma load_files_from env all files self log :
  files ⊆ all →
  Forall (registered_from env all) (services self) →
  Forall (registered_from env all)
    (services (load_files env files self log).1.2).
Proof.
  intros Hsub.
  apply (load_files_keeps
           (λ self', Forall (registered_from env all) (services self'))).
  intros service_file functions self' func_name func Hfile Himp Hmem Hpub.
  eapply register_function_from; try done. by apply Hsub.
Qed.

Lemma register_function_counts service_file self func_name func :
  (length (services self) ≤ length (service_names self))%nat →
  (length (services (register_function service_file self func_name func))
   ≤ length (service_names
               (register_function service_file self func_name func)))%nat.
Proof.
  intros Hle. unfold register_function.
  destruct (has_param "phone" func || has_param "sdt" func)%bool; [|done].
  simpl. rewrite length_app. simpl.
  pose proof (length_dict_set (services self)
                (service_file +:+ "_" +:+ func_name) func). lia.
Qed.

Lemma load_files_counts env files self log :
  (length (services self) ≤ length (service_names self))%nat →
  (length (services (load_files env files self log).1.2)
   ≤ length (service_names (load_files env files self log).1.2))%nat.
Proof.
  apply (load_files_keeps
           (λ self', (length (services self')
                      ≤ length (service_names self'))%nat)).
  intros service_file functions self' func_name func _ _ _ _.
  apply register_function_counts.
Qed.

(** X1. Every adapter in a registry loaded into a new loader stems from a
    function of a configured service file that could be imported: its key
    is the file name, an underscore and the function name, the name does
    not begin with an underscore, and the function takes [phone] or [sdt].
    The keys of the registry are distinct, and there are at most as many
    of them as names in [service_names]. *)
Theorem loaded_registry_provenance
    (env : import_env) (log : list string) :
  Forall (registered_from env config.SERVICE_FILES)
    (services (load_all_services env new_loader log).1.2)
  ∧ dict_wf (services (load_all_services env new_loader log).1.2)
  ∧ (length (services (load_all_services env new_loader log).1.2)
     ≤ length (service_names (load_all_services env new_loader log).1.2))%nat.
Proof.
  unfold load_all_services. rewrite load_services_from_loader.
  split_and!.
  - apply load_files_from; [done|]. constructor.
  - apply load_files_wf. constructor.
  - apply load_files_counts. done.
Qed.

Lemma register_function_keys_mono service_file self func_name func key :
  key ∈ dict_keys (services self) →
  key ∈ dict_keys (services (register_function service_file self func_name func)).
Proof.
  intros Hkey. unfold register_function.
  destruct (has_param "phone" func || has_param "sdt" func)%bool; [|done].
  simpl. by apply dict_set_keys_mono.
Qed.

Lemma register_functions_keys_mono service_file functions self key :
  key ∈ dict_keys (services self) →
  key ∈ dict_keys (services (register_functions service_file self functions).2).
Proof.
  apply (register_functions_keeps
           (λ self', key ∈ dict_keys (services self'))).
  intros self' func_name func _ _. apply register_function_keys_mono.
Qed.

Lemma load_files_keys_mono env files self log key :
  key ∈ dict_keys (services self) →
  key ∈ dict_keys (services (load_files env files self log).1.2).
Proof.
  apply (load_files_keeps (λ self', key ∈ dict_keys (services self'))).
  intros service_file functions self' func_name func _ _ _ _.
  apply register_function_keys_mono.
Qed.

(** A registrable function is registered when the loop reaches it, which
    it does when the public functions before it can be inspected. *)
Lemma register_functions_registers service_file self earlier func_name func
    later :
  all_inspectable earlier →
  registrable (func_name, func) = true →
  (service_file +:+ "_" +:+ func_name)
  ∈ dict_keys (services (register_functions service_file self
                           (earlier ++ (func_name, Returns func) :: later)).2).
Proof.
  intros Hall Hreg. rewrite register_functions_app.
  pose proof (register_functions_inspectable service_file self earlier Hall)
    as Hthrough.
  destruct (register_functions service_file self earlier) as [[[]|e] self'];
    [|done].
  unfold registrable in Hreg. simpl in Hreg.
  apply andb_true_iff in Hreg as [Hpub Hparam].
  apply negb_true_iff in Hpub. simpl. rewrite Hpub.
  apply register_functions_keys_mono. unfold register_function.
  rewrite Hparam. simpl. apply dict_set_key_in.
Qed.

Lemma load_service_file_registers env service_file self functions earlier
    func_name func later :
  import_functions env service_file = Returns functions →
  functions = earlier ++ (func_name, Returns func) :: later →
  all_inspectable earlier →
  registrable (func_name, func) = true →
  (service_file +:+ "_" +:+ func_name)
  ∈ dict_keys (services (load_service_file env service_file self).2).
Proof.
  intros Himp -> Hall Hreg. unfold load_service_file. rewrite Himp.
  pose proof (register_functions_registers service_file self earlier
                func_name func later Hall Hreg) as Hin.
  by destruct (register_functions service_file self _) as [[[]|e] self'].
Qed.

Lemma load_files_registers env files self log service_file functions
    earlier func_name func later :
  (load_files env files self log).1.1 = Returns () →
  service_file ∈ files →
  import_functions env service_file = Returns functions →
  functions = earlier ++ (func_name, Returns func) :: later →
  all_inspectable earlier →
  registrable (func_name, func) = true →
  (service_file +:+ "_" +:+ func_name)
  ∈ dict_keys (services (load_files env files self log).1.2).
Proof.
  intros Hret Hfile Himp Hsplit Hall Hreg. revert self log Hret.
  induction files as [|file rest IH]; intros self log Hret.
  - by apply elem_of_nil in Hfile.
  - simpl in *. apply elem_of_cons in Hfile as [<-|Hfile].
    + pose proof (load_service_file_registers env service_file self functions
                    earlier func_name func later Himp Hsplit Hall Hreg) as Hin.
      destruct (load_service_file env service_file self)
        as [[listed|e] self'].
      * by apply load_files_keys_mono.
      * destruct (exn_is_Exception e); [by apply load_files_keys_mono|done].
    + destruct (load_service_file env file self) as [[listed|e] self'].
      * by apply IH.
      * destruct (exn_is_Exception e); [by apply IH|done].
Qed.

Lemma load_services_from_returns env files self log registry :
  (load_services_from env files self log).1.1 = Returns registry →
  registry = services (load_services_from env files self log).1.2
  ∧ (load_files env files self (log ++ ["Loading SMS services..."])).1.1
    = Returns ().
Proof.
  unfold load_services_from.
  destruct (load_files _ _ _ _) as [[[[]|e] self'] log']; simpl; [|done].
  by intros [= <-].
Qed.

(** X2. When [load_all_services] returns, what it returns is the registry
    of the loader, and a function of a configured service file that could
    be imported is in it under the key of the file name, an underscore and
    the function name, if its name does not begin with an underscore, it
    takes [phone] or [sdt], and [inspect.signature] fails on no public
    function listed before it in the module. *)
Theorem eligible_functions_are_registered
    (env : import_env) (self : SMSServiceLoader) (log : list string)
    (registry : dict pyfunc) (service_file func_name : string)
    (functions earlier later : list (string * outcome pyfunc))
    (func : pyfunc) :
  (load_all_services env self log).1.1 = Returns registry →
  service_file ∈ config.SERVICE_FILES →
  import_functions env service_file = Returns functions →
  functions = earlier ++ (func_name, Returns func) :: later →
  all_inspectable earlier →
  registrable (func_name, func) = true →
  registry = services (load_all_services env self log).1.2
  ∧ (service_file +:+ "_" +:+ func_name) ∈ dict_keys registry.
Proof.
  unfold load_all_services. intros Hret Hfile Himp Hsplit Hall Hreg.
  apply load_services_from_returns in Hret as [-> Hfiles].
  split; [done|]. rewrite load_services_from_loader.
  by eapply load_files_registers.
Qed.

Lemma registrable_calling_convention (func_name : string) (func : pyfunc) :
  registrable (func_name, func) = true →
  calling_convention func
  = (if has_param "phone" func then ByKeyword "phone" else ByKeyword "sdt").
Proof.
  unfold registrable, calling_convention. simpl.
  intros [_ Hparam]%andb_true_iff.
  destruct (has_param "phone" func); [done|]. simpl in Hparam.
  by rewrite Hparam.
Qed.

(** X3. An adapter of a registry loaded into a new loader is never called
    positionally: [_call_service] passes the target as [phone=] when the
    function takes [phone], and as [sdt=] otherwise, and its result is
    decided by that one call. *)
Theorem loaded_adapters_called_by_keyword
    (env : import_env) (log : list string) (key target : string)
    (func : pyfunc) :
  (key, func) ∈ services (load_all_services env new_loader log).1.2 →
  calling_convention func
  = (if has_param "phone" func then ByKeyword "phone" else ByKeyword "sdt")
  ∧ calling_convention func ≠ Positional
  ∧ _call_service key func target
    = match fn_call func
              (if has_param "phone" func then ByKeyword "phone"
               else ByKeyword "sdt") target with
      | Returns result =>
          Returns (success_result key
                     (if truthy result then result else PyStr "SMS sent"))
      | Raises e =>
          if exn_is_Exception e
          then Returns (error_result key (exn_str e))
          else Raises e
      end.
Proof.
  intros Hin.
  assert (Forall (registered_from env config.SERVICE_FILES)
            (services (load_all_services env new_loader log).1.2)) as Hfrom.
  { unfold load_all_services. rewrite load_services_from_loader.
    apply load_files_from; [done|]. constructor. }
  pose proof (proj1 (Forall_forall _ _) Hfrom _ Hin)
    as (service_file & func_name & functions & _ & _ & _ & _ & Hreg).
  simpl in Hreg. apply registrable_calling_convention in Hreg.
  split_and!.
  - done.
  - rewrite Hreg. by destruct (has_param "phone" func).
  - unfold _call_service. by rewrite Hreg.
Qed.

Lemma get_available_services_dedup_aux (self : SMSServiceLoader) :
  NoDup (get_available_services self)
  ∧ (∀ name, name ∈ get_available_services self ↔ name ∈ service_names self).
Proof.
  unfold get_available_services. split; [apply NoDup_elements|].
  intros name. by rewrite elem_of_elements, elem_of_list_to_set.
Qed.

(** X4. [get_available_services] lists every registered function name
    once: the list has no duplicates, holds exactly the names of
    [service_names], is no longer than it, and is empty when nothing was
    registered. *)
Theorem get_available_services_dedup (self : SMSServiceLoader) :
  NoDup (get_available_services self)
  ∧ (∀ name, name ∈ get_available_services self ↔ name ∈ service_names self)
  ∧ (length (get_available_services self) ≤ length (service_names self))%nat
  ∧ (service_names self = [] → get_available_services self = []).
Proof.
  unfold get_available_services.
  assert (∀ name, name ∈ elements (list_to_set (service_names self) : gset string)
                  ↔ name ∈ service_names self) as Hiff.
  { intros name. by rewrite elem_of_elements, elem_of_list_to_set. }
  split_and!.
  - apply NoDup_elements.
  - exact Hiff.
  - apply submseteq_length, NoDup_submseteq; [apply NoDup_elements|].
    intros name. apply Hiff.
  - intros Hnil. rewrite Hnil. simpl. apply elements_empty.
Qed.

(** ** More on the batch dispatcher *)

Lemma collect_returns_inv (fs : list future) (t t' : tally) :
  collect t fs = Returns t' → Forall (λ f, fut_fatal f = false) fs.
Proof.
  revert t. induction fs as [|f fs IH]; intros t; simpl; [by constructor|].
  destruct (collect_one t f) as [t1|e] eqn:Hone; [|done].
  intros Hrest. constructor; [|by eapply IH].
  destruct (fut_fatal f) eqn:Hfatal; [|done].
  destruct (collect_one_fatal t f Hfatal) as (e & He & _). congruence.
Qed.

Lemma fut_fatal_submit_inv sched target entry :
  fut_fatal (submit sched target entry) = false →
  raises_only_Exception target entry.
Proof.
  unfold fut_fatal, raises_only_Exception, submit, _call_service. simpl.
  intros Hfatal e He. rewrite He in Hfatal.
  destruct (exn_is_Exception e) eqn:Hexc; [done|].
  simpl in Hfatal. rewrite Hexc in Hfatal. discriminate.
Qed.

Lemma collect_one_service (t t' : tally) (f : future) :
  from_invoker f →
  (∀ d, fut_outcome f = Returns d → d !! "service" = Some (PyStr (fut_service f))) →
  collect_one t f = Returns t' →
  ∃ d, t_results t' = t_results t ++ [d]
       ∧ d !! "service" = Some (PyStr (fut_service f)).
Proof.
  intros Hf Hname. unfold collect_one.
  destruct (fut_outcome f) as [d|e] eqn:Hout.
  - destruct (exactly_one_field_status d (Hf d Hout)) as [st Hst].
    rewrite Hst. destruct (eq_str st "success"); intros [= <-]; simpl;
      exists d; (split; [done|by apply Hname]).
  - destruct (exn_is_Exception e); [|done]. intros [= <-]. simpl.
    eexists. split; [done|]. apply error_result_fields.
Qed.

Lemma collect_services (fs : list future) (t t' : tally) :
  Forall from_invoker fs →
  Forall (λ f, ∀ d, fut_outcome f = Returns d →
                    d !! "service" = Some (PyStr (fut_service f))) fs →
  collect t fs = Returns t' →
  ∃ ds, t_results t' = t_results t ++ ds
        ∧ (λ d : result_dict, d !! "service") <$> ds
          = (λ f, Some (PyStr (fut_service f))) <$> fs.
Proof.
  intros Hfs Hnames. revert t.
  induction fs as [|f fs IH]; intros t; simpl.
  - intros [= <-]. exists []. by rewrite app_nil_r.
  - apply Forall_cons in Hfs as [Hf Hfs].
    apply Forall_cons in Hnames as [Hname Hnames].
    destruct (collect_one t f) as [t1|e] eqn:Hone; [|done].
    intros Hrest. apply (IH Hfs Hnames) in Hrest as (ds & Hres & Hds).
    apply collect_one_service in Hone as (d & Hres1 & Hd); [|done..].
    exists (d :: ds). rewrite Hres, Hres1, <- app_assoc. split; [done|].
    rewrite !fmap_cons. by rewrite Hd, Hds.
Qed.

Lemma submit_names_future sched target entry d :
  fut_outcome (submit sched target entry) = Returns d →
  d !! "service" = Some (PyStr (fut_service (submit sched target entry))).
Proof. simpl. apply _call_service_has_service. Qed.

(** X5. [send_sms_batch] returns a batch result exactly when the amount is
    not negative, every selected adapter is done within [REQUEST_TIMEOUT],
    and no selected adapter raises something that is not an [Exception];
    in every other case it raises. *)
Theorem send_sms_batch_returns_iff
    (self : SMSServiceLoader) (sched : schedule) (target : string)
    (amount : Z) (g : rng) :
  (∃ br g', send_sms_batch self sched target amount g = (Returns br, g'))
  ↔ (0 ≤ amount
     ∧ ∃ selected g',
         get_random_services self amount g = (Returns selected, g')
         ∧ Forall (λ entry, (sched entry.1 ≤ config.REQUEST_TIMEOUT)%nat) selected
         ∧ Forall (raises_only_Exception target) selected).
Proof.
  split.
  - intros (br & g' & Hret).
    apply send_sms_batch_returns_inv in Hret
      as (selected & finished & Hsel & Hdone & Hperm & Hcol & _).
    split.
    + destruct (Z.lt_ge_cases amount 0) as [Hneg|Hpos]; [|done].
      rewrite get_random_services_negative in Hsel by done. discriminate.
    + exists selected, g'. split_and!; [done..|].
      apply collect_returns_inv in Hcol. rewrite Hperm in Hcol.
      apply Forall_fmap in Hcol.
      eapply Forall_impl; [exact Hcol|]. intros entry.
      apply fut_fatal_submit_inv.
  - intros (_ & selected & g' & Hsel & Hdone & Hexc).
    destruct (send_sms_batch_returns self sched target amount g selected g'
                Hsel Hdone Hexc) as (br & Hret & _).
    by exists br, g'.
Qed.

(** X6. A batch that returns holds one result for each dispatched adapter:
    the service names of its results are the keys of the selected adapters,
    in some order; for a registry they are pairwise distinct. *)
Theorem batch_has_one_result_per_adapter
    (self : SMSServiceLoader) (sched : schedule) (target : string)
    (amount : Z) (g : rng) (br : BatchResult) (g' : rng) :
  send_sms_batch self sched target amount g = (Returns br, g') →
  ∃ selected,
    get_random_services self amount g = (Returns selected, g')
    ∧ (λ d : result_dict, d !! "service") <$> results br
      ≡ₚ (λ entry : string * pyfunc, Some (PyStr entry.1)) <$> selected
    ∧ (dict_wf (services self) →
       NoDup ((λ d : result_dict, d !! "service") <$> results br)).
Proof.
  intros Hret.
  apply send_sms_batch_returns_inv in Hret
    as (selected & finished & Hsel & Hdone & Hperm & Hcol & _).
  exists selected. split; [done|].
  apply collect_services in Hcol as (ds & Hres & Hds).
  - simpl in Hres. subst ds.
    assert ((λ d : result_dict, d !! "service") <$> results br
            ≡ₚ (λ entry : string * pyfunc, Some (PyStr entry.1)) <$> selected)
      as Hservices.
    { rewrite Hds, Hperm, <- list_fmap_compose. done. }
    split; [done|]. intros Hwf. rewrite Hservices.
    assert (NoDup (dict_keys selected)) as Hkeys.
    { destruct (Z.lt_ge_cases amount 0) as [Hneg|Hpos].
      - rewrite get_random_services_negative in Hsel by done. discriminate.
      - destruct (get_random_services_spec self amount g Hpos)
          as (selected' & g'' & Hsel' & _ & Hsub).
        rewrite Hsel in Hsel'. injection Hsel' as <- <-.
        unfold dict_wf, dict_keys in *.
        eapply NoDup_of_submseteq; [|exact Hwf]. by apply fmap_submseteq. }
    unfold dict_keys in Hkeys.
    replace ((λ entry : string * pyfunc, Some (PyStr entry.1)) <$> selected)
      with ((λ k, Some (PyStr k)) <$> selected.*1)
      by (by rewrite <- list_fmap_compose).
    apply NoDup_fmap_2; [|done]. intros k1 k2 [=]. done.
  - rewrite Hperm. apply Forall_fmap, Forall_forall.
    intros entry _. apply submit_from_invoker.
  - rewrite Hperm. apply Forall_fmap, Forall_forall.
    intros entry _ d. apply submit_names_future.
Qed.


Lemma get_random_services_nothing (self : SMSServiceLoader) (amount : Z) (g : rng) :
  0 ≤ amount → amount = 0 ∨ services self = [] →
  get_random_services self amount g = (Returns [], g).
Proof.
  intros Hpos Hcase. unfold get_random_services, random_sample.
  destruct Hcase as [->|Hempty].
  - destruct (Z.gtb_spec 0 (Z.of_nat (length (services self)))); [lia|].
    rewrite (proj2 (Z.leb_le 0 (Z.of_nat (length (services self))))) by lia.
    done.
  - rewrite Hempty. cbn [length]. change (Z.of_nat 0) with 0.
    destruct (Z.gtb_spec amount 0) as [Hgt|Hle]; [reflexivity|].
    assert (amount = 0) as -> by lia. reflexivity.
Qed.

(** X8. The edge amounts of a batch.  A negative amount makes
    [send_sms_batch] raise the [ValueError] of [random.sample]; it returns
    no empty batch.  An amount of 0, or any amount that is not negative on
    an empty registry, returns at once the batch without results, whatever
    the schedule. *)
Theorem batch_edge_amounts
    (self : SMSServiceLoader) (sched : schedule) (target : string)
    (amount : Z) (g : rng) :
  (amount < 0 →
   send_sms_batch self sched target amount g
   = (Raises (ValueError "Sample larger than population or is negative"), g))
  ∧ (0 ≤ amount → amount = 0 ∨ services self = [] →
     send_sms_batch self sched target amount g
     = (Returns (mkBatch target amount 0 [] 0 0), g)).
Proof.
  split.
  - intros Hneg. unfold send_sms_batch.
    by rewrite get_random_services_negative.
  - intros Hpos Hcase. unfold send_sms_batch.
    by rewrite get_random_services_nothing.
Qed.

(** ** More on single dispatch *)

Lemma append_nil_r (s : string) : s +:+ "" = s.
Proof. induction s as [|c s IH]; [done|]. by rewrite append_cons, IH. Qed.

Lemma name_matches_empty (str_lower : string → string)
    (entry : string * pyfunc) :
  str_lower "" = "" → name_matches str_lower "" entry = true.
Proof.
  intros Hempty. unfold name_matches. rewrite Hempty.
  apply contains_spec. exists "", (str_lower entry.1). done.
Qed.

Lemma name_matches_own_key (str_lower : string → string)
    (key : string) (func : pyfunc) :
  name_matches str_lower key (key, func) = true.
Proof.
  unfold name_matches. apply contains_spec. exists "", "". simpl.
  by rewrite append_nil_r.
Qed.

(** X9. The edges of [send_sms_single], whatever [str.lower] computes.
    On an empty registry every service name is not found.  The empty
    service name, which [str.lower] leaves empty, matches every key, so the
    first registered adapter is called.  A registered key given as the
    service name is never not found. *)
Theorem send_sms_single_edges
    (str_lower : string → string)
    (self : SMSServiceLoader) (target : string) :
  (services self = [] →
   ∀ service_name,
     send_sms_single str_lower self target service_name
     = Returns (not_found_result service_name))
  ∧ (str_lower "" = "" →
     ∀ key func rest,
       services self = (key, func) :: rest →
       send_sms_single str_lower self target ""
       = _call_service key func target)
  ∧ (∀ key func,
       (key, func) ∈ services self →
       send_sms_single str_lower self target key
       ≠ Returns (not_found_result key)).
Proof.
  split_and!.
  - intros Hempty service_name. unfold send_sms_single. by rewrite Hempty.
  - intros Hlower key func rest Hsplit. unfold send_sms_single.
    rewrite Hsplit. cbn [List.filter]. by rewrite name_matches_empty.
  - intros key func Hin. unfold send_sms_single.
    destruct (List.filter _ _) as [|[key' func'] rest] eqn:Hfilter.
    + pose proof (proj1 (filter_nil_iff _ _) Hfilter _ Hin) as Hno.
      by rewrite name_matches_own_key in Hno.
    + intros Hcall. apply _call_service_has_service in Hcall.
      destruct (not_found_result_fields key) as (Hnone & _). congruence.
Qed.

(** ** The deadline *)

Lemma filter_fmap_list {A B} (P : B → Prop) `{!∀ x, Decision (P x)}
    (f : A → B) (l : list A) :
  filter P (f <$> l) = f <$> filter (λ x, P (f x)) l.
Proof.
  induction l as [|x l IH]; [done|]. rewrite fmap_cons.
  destruct (decide (P (f x))) as [HP|HP].
  - rewrite !filter_cons_True by done. by rewrite fmap_cons, IH.
  - by rewrite !filter_cons_False.
Qed.

Lemma late_nil_iff (sched : schedule) (selected : list (string * pyfunc)) :
  late sched selected = []
  ↔ Forall (λ entry, (sched entry.1 ≤ config.REQUEST_TIMEOUT)%nat) selected.
Proof.
  unfold late. induction selected as [|entry selected IH].
  - split; [by constructor|done].
  - destruct (decide (sched entry.1 ≤ config.REQUEST_TIMEOUT)%nat) as [Hin|Hout].
    + rewrite filter_cons_False by (intros Hn; by apply Hn).
      rewrite IH. split.
      * by constructor.
      * by intros [_ ?]%Forall_cons.
    + rewrite filter_cons_True by done. split; [done|].
      by intros [? _]%Forall_cons.
Qed.

(** When adapters are late and none raises but [Exception]s, the batch
    raises the [TimeoutError] of [as_completed], which counts them. *)
Lemma send_sms_batch_times_out self sched target amount g selected g' :
  get_random_services self amount g = (Returns selected, g') →
  Forall (raises_only_Exception target) selected →
  late sched selected ≠ [] →
  send_sms_batch self sched target amount g
  = (Raises (TimeoutError (pretty (length (late sched selected)) +:+ " (of "
                           +:+ pretty (length selected)
                           +:+ ") futures unfinished")), g').
Proof.
  intros Hsel Hexc Hlate. unfold send_sms_batch. rewrite Hsel.
  unfold as_completed. cbv zeta.
  assert (Forall (λ f, fut_fatal f = false)
            (merge_sort done_before
               (filter (λ f, (fut_done_at f ≤ config.REQUEST_TIMEOUT)%nat)
                  (submit sched target <$> selected)))) as Hfatal.
  { rewrite merge_sort_Permutation. apply Forall_forall. intros f Hf.
    pose proof (elem_of_sublist _ _ _ Hf (sublist_filter _ _)) as Hin.
    apply list_elem_of_fmap in Hin as (entry & -> & Hentry).
    apply fut_fatal_submit. by apply (proj1 (Forall_forall _ _) Hexc). }
  destruct (collect_returns _ (mkTally [] 0 0) Hfatal) as [t ->].
  rewrite (filter_fmap_list
             (λ f, ¬ (fut_done_at f ≤ config.REQUEST_TIMEOUT)%nat)).
  change (filter _ selected) with (late sched selected).
  rewrite !length_fmap.
  destruct (late sched selected) as [|entry rest]; [done|].
  by rewrite fmap_cons.
Qed.

(** What a batch raises is an [Exception] when the adapters of the
    registry raise nothing else. *)
Lemma send_sms_batch_raises_Exception self sched target amount g e g' :
  Forall (raises_only_Exception target) (services self) →
  send_sms_batch self sched target amount g = (Raises e, g') →
  exn_is_Exception e = true.
Proof.
  intros Hexc Hraise.
  destruct (Z.lt_ge_cases amount 0) as [Hneg|Hpos].
  { unfold send_sms_batch in Hraise.
    rewrite get_random_services_negative in Hraise by done.
    by injection Hraise as <- _. }
  destruct (get_random_services_spec self amount g Hpos)
    as (selected & g1 & Hsel & _ & Hsub).
  assert (Forall (raises_only_Exception target) selected) as Hexc'.
  { apply Forall_forall. intros entry Hentry.
    apply (proj1 (Forall_forall _ _) Hexc). by eapply elem_of_submseteq. }
  destruct (decide (late sched selected = [])) as [Hnone|Hlate].
  - apply late_nil_iff in Hnone.
    destruct (send_sms_batch_returns self sched target amount g selected g1
                Hsel Hnone Hexc') as (br & Hret & _). congruence.
  - rewrite (send_sms_batch_times_out self sched target amount g selected g1)
      in Hraise by done.
    by injection Hraise as <- _.
Qed.

(** * Properties of the HTTP surface *)

(** ** Validation of the phone number *)

Lemma digits_of_all_digits (v : string) : all_digits (main.digits_of v) = true.
Proof.
  induction v as [|c v IH]; [done|]. simpl.
  destruct (main.isdigit c) eqn:Hc; [|done]. simpl. by rewrite Hc, IH.
Qed.

Lemma digits_of_fixed (s : string) :
  all_digits s = true → main.digits_of s = s.
Proof.
  induction s as [|c s IH]; [done|]. simpl.
  intros [Hc Hs]%andb_true_iff. by rewrite Hc, IH.
Qed.

Lemma validate_phone_returns_inv (v p : string) :
  main.validate_phone v = Returns p →
  p = main.digits_of v
  ∧ 10 ≤ Z.of_nat (String.length p) ≤ 11
  ∧ String.prefix "0" p = true.
Proof.
  unfold main.validate_phone.
  destruct (Z.ltb_spec (Z.of_nat (String.length (main.digits_of v))) 10);
    [done|].
  destruct (Z.gtb_spec (Z.of_nat (String.length (main.digits_of v))) 11);
    [done|].
  simpl. destruct (String.prefix "0" (main.digits_of v)) eqn:Hzero; [|done].
  simpl. intros [= <-]. split_and!; [done|lia|lia|done].
Qed.

(** X10. What [validate_phone] returns for an ASCII text is its digits,
    ten or eleven of them, beginning with 0; the other characters are
    dropped.  A returned number is a fixed point: validating it again
    returns it unchanged. *)
Theorem validate_phone_normal_form (v p : string) :
  all_ascii v = true →
  main.validate_phone v = Returns p →
  p = main.digits_of v
  ∧ all_digits p = true
  ∧ 10 ≤ Z.of_nat (String.length p) ≤ 11
  ∧ String.prefix "0" p = true
  ∧ main.validate_phone p = Returns p.
Proof.
  intros _ Hret.
  apply validate_phone_returns_inv in Hret as (-> & Hlen & Hzero).
  pose proof (digits_of_all_digits v) as Hdigits.
  split_and!; try done; try lia.
  unfold main.validate_phone. cbv zeta. rewrite (digits_of_fixed _ Hdigits).
  rewrite (proj2 (Z.ltb_ge _ _)) by lia.
  destruct (Z.gtb_spec (Z.of_nat (String.length (main.digits_of v))) 11);
    [lia|].
  simpl. by rewrite Hzero.
Qed.

(** ** The responses of the handlers *)

Lemma internal_error_Exception prefix e :
  exn_is_Exception e = true →
  main.internal_error prefix e
  = Returns (main.HTTPException 500 (PyStr (prefix +:+ exn_str e))).
Proof. intros He. unfold main.internal_error. by rewrite He. Qed.

Lemma new_SMSRequest_inv (raw : string) (amt : option Z) (request : main.SMSRequest) :
  main.new_SMSRequest raw amt = Some request →
  main.validate_phone raw = Returns (main.phone request)
  ∧ main.amount request = default 10 amt
  ∧ 1 ≤ main.amount request ≤ 2000.
Proof.
  unfold main.new_SMSRequest.
  destruct (main.validate_phone raw) as [p|e]; [|done].
  destruct (Z.leb_spec 1 (default 10 amt)); [|done].
  destruct (Z.leb_spec (default 10 amt) 2000); [|done].
  simpl. intros [= <-]. simpl. split_and!; [done|done|lia|lia].
Qed.

(** X11. [POST /api/sms/send] for a validated request, on a loader whose
    adapters raise nothing but [Exception]s.  The amount lies in
    [1..2000], so the selection never fails and holds
    [min(amount, size())] adapters.  When all of them are done within
    [REQUEST_TIMEOUT] the response is the completed body with the batch
    result; when some are late it is the error 500 whose detail counts
    them, and the results that were collected are not reported. *)
Theorem post_send_responses
    (env : import_env) (sched : schedule) (raw : string) (amt : option Z)
    (request : main.SMSRequest) (w : world) (g : rng)
    (loader : SMSServiceLoader) (w' : world) :
  all_ascii raw = true →
  main.new_SMSRequest raw amt = Some request →
  get_loader env w = (Returns loader, w') →
  Forall (raises_only_Exception (main.phone request)) (services loader) →
  ∃ selected g',
    get_random_services loader (main.amount request) g = (Returns selected, g')
    ∧ Z.of_nat (length selected)
      = Z.min (main.amount request) (get_service_count loader)
    ∧ (late sched selected = [] →
       ∃ br,
         main.send_sms_batch env sched request w g
         = (Returns (main.Response (main.BatchCompleted
              ("Đã gửi SMS qua " +:+ pretty (success_count br) +:+ "/"
               +:+ pretty (total_services br) +:+ " dịch vụ") br)), w', g')
         ∧ total_services br = Z.of_nat (length selected)
         ∧ success_count br + error_count br = total_services br)
    ∧ (late sched selected ≠ [] →
       main.send_sms_batch env sched request w g
       = (Returns (main.HTTPException 500
            (PyStr ("Error sending SMS: "
                    +:+ pretty (length (late sched selected)) +:+ " (of "
                    +:+ pretty (length selected)
                    +:+ ") futures unfinished"))), w', g')).
Proof.
  intros _ Hreq Hloader Hexc.
  apply new_SMSRequest_inv in Hreq as (_ & _ & Hamount).
  destruct (get_random_services_spec loader (main.amount request) g
              ltac:(lia)) as (selected & g' & Hsel & Hlen & Hsub).
  assert (Forall (raises_only_Exception (main.phone request)) selected)
    as Hexc'.
  { apply Forall_forall. intros entry Hentry.
    apply (proj1 (Forall_forall _ _) Hexc). by eapply elem_of_submseteq. }
  exists selected, g'. split_and!; [done|done| |].
  - intros Hnone. apply late_nil_iff in Hnone.
    destruct (send_sms_batch_returns loader sched (main.phone request)
                (main.amount request) g selected g' Hsel Hnone Hexc')
      as (br & Hret & Herr & Hsucc).
    exists br. unfold main.send_sms_batch. rewrite Hloader, Hret.
    split; [done|].
    apply send_sms_batch_returns_inv in Hret
      as (selected' & _ & Hsel' & _ & _ & _ & _ & _ & Htot).
    rewrite Hsel in Hsel'. injection Hsel' as <-.
    pose proof (filter_length_complement (raises (main.phone request)) selected).
    split; [done|]. rewrite Herr, Hsucc, Htot. lia.
  - intros Hlate. unfold main.send_sms_batch. rewrite Hloader.
    rewrite (send_sms_batch_times_out loader sched (main.phone request)
               (main.amount request) g selected g') by done.
    by rewrite internal_error_Exception.
Qed.

Lemma spam_error_Exception e :
  exn_is_Exception e = true →
  main.spam_error e = Returns (main.Response (main.SpamError (exn_str e))).
Proof. intros He. unfold main.spam_error. by rewrite He. Qed.

(** X12. [GET /api/spam] for an ASCII phone number, on a loader whose
    adapters raise nothing but [Exception]s, always answers with a body,
    never with an error status:
    a failure of the batch is the message of an error body.  A phone
    number that does not begin with 0 or is shorter than ten characters is
    refused before the loader is touched.  An amount above 2000 is treated
    as 2000.  A negative amount is not refused: it reaches [random.sample]
    and the answer is its error message. *)
Theorem spam_get_responses
    (env : import_env) (sched : schedule) (number : string) (amount : Z)
    (w : world) (g : rng) (loader : SMSServiceLoader) (w' : world) :
  all_ascii number = true →
  get_loader env w = (Returns loader, w') →
  Forall (raises_only_Exception number) (services loader) →
  (∃ body w'' g',
     main.spam_get env sched number amount w g
     = (Returns (main.Response body), w'', g'))
  ∧ (String.prefix "0" number = false ∨ Z.of_nat (String.length number) < 10 →
     main.spam_get env sched number amount w g
     = (Returns (main.Response (main.SpamError "So dien thoai khong hop le")),
        w, g))
  ∧ (amount > 2000 →
     main.spam_get env sched number amount w g
     = main.spam_get env sched number 2000 w g)
  ∧ (String.prefix "0" number = true → 10 ≤ Z.of_nat (String.length number) →
     amount < 0 →
     main.spam_get env sched number amount w g
     = (Returns (main.Response
          (main.SpamError "Sample larger than population or is negative")),
        w', g)).
Proof.
  intros _ Hloader Hexc. split_and!.
  - unfold main.spam_get.
    destruct (negb (String.prefix "0" number)
              || (Z.of_nat (String.length number) <? 10))%bool; [by eauto|].
    rewrite Hloader.
    destruct (send_sms_batch loader sched number _ g) as [[br|e] g'] eqn:Hbatch.
    + by eauto.
    + apply send_sms_batch_raises_Exception in Hbatch; [|done].
      rewrite spam_error_Exception by done. by eauto.
  - intros Hbad. unfold main.spam_get.
    destruct Hbad as [Hzero|Hshort].
    + by rewrite Hzero.
    + rewrite (proj2 (Z.ltb_lt _ _) Hshort). by rewrite orb_true_r.
  - intros Hbig. unfold main.spam_get.
    rewrite (proj2 (Z.gtb_gt _ _)) by lia.
    by rewrite Z.gtb_ltb, Z.ltb_irrefl.
  - intros Hzero Hlong Hneg. unfold main.spam_get.
    rewrite Hzero, (proj2 (Z.ltb_ge _ _)) by lia. simpl.
    destruct (Z.gtb_spec amount 2000); [lia|].
    rewrite Hloader. unfold send_sms_batch.
    rewrite get_random_services_negative by done.
    by rewrite spam_error_Exception.
Qed.


(** ** The list of services *)

#[global] Instance string_le_total : Total main.string_le.
Proof. intros a b. apply String.leb_total. Qed.

Lemma Sorted_take {A} (R : relation A) (l : list A) (n : nat) :
  Sorted R l → Sorted R (take n l).
Proof.
  intros Hsorted. revert n.
  induction Hsorted as [|x l Hl IH Hhd]; intros [|n]; simpl;
    [constructor..|].
  constructor; [apply IH|].
  destruct Hhd as [|y l Hxy]; destruct n; simpl; by constructor.
Qed.

(** X14. [GET /api/sms/services] reports as [total] the number of distinct
    function names, and lists at most fifty of them: the listed names are
    registered names, in ascending order without repetition, and when there
    are no more than fifty distinct names all of them are listed. *)
Theorem list_services_response
    (env : import_env) (w : world) (loader : SMSServiceLoader) (w' : world) :
  get_loader env w = (Returns loader, w') →
  ∃ listed,
    main.list_services env w
    = (Returns (main.Response (main.ServiceList
         (Z.of_nat (length (get_available_services loader))) listed)), w')
    ∧ length listed = (50 `min` length (get_available_services loader))%nat
    ∧ NoDup listed
    ∧ Sorted main.string_le listed
    ∧ (∀ name, name ∈ listed → name ∈ service_names loader)
    ∧ ((length (get_available_services loader) ≤ 50)%nat →
       ∀ name, name ∈ listed ↔ name ∈ service_names loader).
Proof.
  intros Hloader. unfold main.list_services. rewrite Hloader.
  eexists. split; [done|].
  destruct (get_available_services_dedup_aux loader) as (Hnodup & Hiff).
  pose proof (merge_sort_Permutation main.string_le
                (get_available_services loader)) as Hperm.
  split_and!.
  - rewrite length_take. unfold main.sorted.
    by rewrite (Permutation_length Hperm).
  - eapply sublist_NoDup; [|apply sublist_take].
    unfold main.sorted. by rewrite Hperm.
  - apply Sorted_take. unfold main.sorted. apply Sorted_merge_sort. apply _.
  - intros name Hname. apply Hiff. rewrite <- Hperm.
    eapply elem_of_sublist; [exact Hname|apply sublist_take].
  - intros Hfew name. rewrite take_ge.
    + unfold main.sorted. rewrite Hperm. apply Hiff.
    + unfold main.sorted. by rewrite (Permutation_length Hperm).
Qed.

(** ** Names and keys *)

Lemma drop_chars_app (a b : string) :
  drop_chars (String.length a) (a +:+ b) = b.
Proof. induction a as [|c a IH]; [by destruct b|]. by rewrite append_cons. Qed.

Lemma drop_chars_key (service_file func_name : string) :
  String.length service_file = 8%nat →
  drop_chars 9 (service_file +:+ "_" +:+ func_name) = func_name.
Proof.
  intros Hlen.
  do 9 (destruct service_file as [|? service_file]; try discriminate).
  reflexivity.
Qed.

(** Every registered name is what follows the ninth character of a key. *)
Lemma register_function_names service_file self func_name func :
  String.length service_file = 8%nat →
  (∀ name, name ∈ service_names self →
           name ∈ drop_chars 9 <$> dict_keys (services self)) →
  ∀ name,
    name ∈ service_names (register_function service_file self func_name func) →
    name ∈ drop_chars 9
           <$> dict_keys (services
                 (register_function service_file self func_name func)).
Proof.
  intros Hlen Hself name. unfold register_function.
  destruct (has_param "phone" func || has_param "sdt" func)%bool;
    [|apply Hself].
  simpl. intros [Hold|Hnew]%elem_of_app.
  - apply Hself in Hold. apply list_elem_of_fmap in Hold as (key & -> & Hkey).
    apply list_elem_of_fmap. exists key. split; [done|].
    by apply dict_set_keys_mono.
  - apply list_elem_of_singleton in Hnew as ->.
    apply list_elem_of_fmap. exists (service_file +:+ "_" +:+ func_name).
    split; [symmetry; by apply drop_chars_key|apply dict_set_key_in].
Qed.

Lemma load_files_names env files self log :
  Forall (λ service_file, String.length service_file = 8%nat) files →
  (∀ name, name ∈ service_names self →
           name ∈ drop_chars 9 <$> dict_keys (services self)) →
  ∀ name,
    name ∈ service_names (load_files env files self log).1.2 →
    name ∈ drop_chars 9 <$> dict_keys (services (load_files env files self log).1.2).
Proof.
  intros Hfiles.
  apply (load_files_keeps
           (λ self', ∀ name, name ∈ service_names self' →
                             name ∈ drop_chars 9 <$> dict_keys (services self'))).
  intros service_file functions self' func_name func Hfile _ _ _.
  apply register_function_names.
  by apply (proj1 (Forall_forall _ _) Hfiles).
Qed.

(** X15. With the configured service files, a registry loaded into a new
    loader has at least as many adapters as there are distinct function
    names: the count of [get_available_services] never exceeds
    [get_service_count]. *)
Theorem distinct_names_at_most_adapters
    (env : import_env) (log : list string) :
  Z.of_nat (length (get_available_services
                      (load_all_services env new_loader log).1.2))
  ≤ get_service_count (load_all_services env new_loader log).1.2.
Proof.
  unfold load_all_services, get_service_count.
  rewrite load_services_from_loader.
  set (self := (load_files env config.SERVICE_FILES new_loader
                  (log ++ ["Loading SMS services..."])).1.2).
  destruct (get_available_services_dedup_aux self) as (Hnodup & Hiff).
  assert (get_available_services self
          ⊆+ drop_chars 9 <$> dict_keys (services self)) as Hsub.
  { apply NoDup_submseteq; [done|]. intros name Hname.
    apply Hiff in Hname. revert name Hname. apply load_files_names.
    - repeat constructor.
    - intros name Hname. by apply elem_of_nil in Hname. }
  apply submseteq_length in Hsub.
  unfold dict_keys in Hsub. rewrite !length_fmap in Hsub. lia.
Qed.

(** ** The deadline and the singleton, as the callers meet them *)

(** X16. When some selected adapters are not done within
    [REQUEST_TIMEOUT], and no selected adapter raises anything but an
    [Exception], [send_sms_batch] raises [TimeoutError] with the message
    that counts the late adapters among those dispatched; the results of
    the adapters that were done are not returned. *)
Theorem late_adapters_raise_TimeoutError
    (self : SMSServiceLoader) (sched : schedule) (target : string)
    (amount : Z) (g : rng) (selected : list (string * pyfunc)) (g' : rng) :
  get_random_services self amount g = (Returns selected, g') →
  Forall (raises_only_Exception target) selected →
  late sched selected ≠ [] →
  send_sms_batch self sched target amount g
  = (Raises (TimeoutError (pretty (length (late sched selected)) +:+ " (of "
                           +:+ pretty (length selected)
                           +:+ ") futures unfinished")), g')
  ∧ (0 < length (late sched selected) ≤ length selected)%nat.
Proof.
  intros Hsel Hexc Hlate. split.
  - by apply send_sms_batch_times_out.
  - split.
    + destruct (late sched selected); [done|simpl; lia].
    + unfold late. apply length_filter.
Qed.

Lemma load_files_raises_fatal env files self log e :
  (load_files env files self log).1.1 = Raises e →
  exn_is_Exception e = false.
Proof.
  revert self log.
  induction files as [|service_file rest IH]; intros self log; simpl; [done|].
  destruct (load_service_file env service_file self) as [[listed|e1] self'].
  - apply IH.
  - destruct (exn_is_Exception e1) eqn:He1; [apply IH|].
    simpl. by intros [= <-].
Qed.

Lemma load_all_services_raises_fatal env self log e :
  (load_all_services env self log).1.1 = Raises e →
  exn_is_Exception e = false.
Proof.
  unfold load_all_services, load_services_from.
  pose proof (load_files_raises_fatal env config.SERVICE_FILES self
                (log ++ ["Loading SMS services..."])) as Hfatal.
  destruct (load_files _ _ _ _) as [[[[]|e'] self'] log']; simpl in *; [done|].
  intros [= <-]. by apply Hfatal.
Qed.

(** X17. When the first call of [get_loader] raises, because a service
    file raised what is not an [Exception], the global is already bound to
    the loader as far as it was loaded: the next call raises nothing,
    returns that loader, and loads nothing again. *)
Theorem failed_first_load_is_kept
    (env : import_env) (w : world) (e : exn) :
  _loader w = None →
  (get_loader env w).1 = Raises e →
  exn_is_Exception e = false
  ∧ ∃ partial,
      _loader (get_loader env w).2 = Some partial
      ∧ partial = (load_all_services env new_loader (logged w)).1.2
      ∧ get_loader env (get_loader env w).2
        = (Returns partial, (get_loader env w).2).
Proof.
  intros Hnone Hraise. unfold get_loader in *. rewrite Hnone in *.
  destruct (load_all_services env new_loader (logged w))
    as [[[registry|e'] self'] log'] eqn:Hload; simpl in *; [done|].
  injection Hraise as ->. split.
  - apply (load_all_services_raises_fatal env new_loader (logged w)).
    by rewrite Hload.
  - by exists self'.
Qed.

(** * The further properties on the example inputs *)

Lemma eligible_functions_are_registered_witness :
  services loaded2 = services (load_all_services env_two_modules new_loader []).1.2
  ∧ "smsvip_0" +:+ "_" +:+ "momo" ∈ dict_keys (services loaded2).
Proof.
  apply (eligible_functions_are_registered env_two_modules new_loader []
           (services loaded2) "smsvip_0" "momo"
           [("_session", Returns sends); ("momo", Returns sends);
            ("version", Returns (mkFunc [] (λ _ _, Returns PyNone)))]
           [("_session", Returns sends)]
           [("version", Returns (mkFunc [] (λ _ _, Returns PyNone)))] sends).
  - vm_compute. reflexivity.
  - vm_compute. apply list_elem_of_here.
  - reflexivity.
  - reflexivity.
  - intros func_name e Hin. apply list_elem_of_singleton in Hin. done.
  - reflexivity.
Defined.

Lemma loaded_adapters_called_by_keyword_witness :
  calling_convention quiet = ByKeyword "sdt"
  ∧ calling_convention quiet ≠ Positional
  ∧ _call_service "smsvip_2_viettel" quiet "0912345678"
    = Returns (success_result "smsvip_2_viettel" (PyStr "SMS sent")).
Proof.
  apply (loaded_adapters_called_by_keyword env_two_modules []
           "smsvip_2_viettel" "0912345678" quiet).
  vm_compute. apply list_elem_of_further, list_elem_of_here.
Defined.

Lemma batch_has_one_result_per_adapter_witness :
  ∃ selected,
    get_random_services registry3 5 draws
    = (Returns selected, λ i, draws (S (S (S i))))
    ∧ (λ d : result_dict, d !! "service") <$> results batch3
      ≡ₚ (λ entry : string * pyfunc, Some (PyStr entry.1)) <$> selected
    ∧ (dict_wf (services registry3) →
       NoDup ((λ d : result_dict, d !! "service") <$> results batch3)).
Proof.
  apply (batch_has_one_result_per_adapter registry3 prompt "0912345678" 5 draws).
  vm_compute. reflexivity.
Defined.


Lemma batch_edge_amounts_witness :
  send_sms_batch registry3 one_slow "0912345678" (-1) draws
  = (Raises (ValueError "Sample larger than population or is negative"), draws)
  ∧ send_sms_batch registry3 one_slow "0912345678" 0 draws
    = (Returns (mkBatch "0912345678" 0 0 [] 0 0), draws).
Proof.
  pose proof (batch_edge_amounts registry3 one_slow "0912345678" (-1) draws)
    as [Hneg _].
  pose proof (batch_edge_amounts registry3 one_slow "0912345678" 0 draws)
    as [_ Hzero].
  split.
  - apply Hneg. lia.
  - apply Hzero; [lia|by left].
Defined.

Lemma send_sms_single_edges_witness :
  send_sms_single ascii_lower new_loader "0912345678" "momo"
  = Returns (not_found_result "momo")
  ∧ send_sms_single ascii_lower registry3 "0912345678" ""
    = _call_service "smsvip_0_momo" sends "0912345678"
  ∧ send_sms_single ascii_lower registry3 "0912345678" "smsvip_1_fpt"
    ≠ Returns (not_found_result "smsvip_1_fpt").
Proof.
  pose proof (send_sms_single_edges ascii_lower new_loader "0912345678")
    as (Hempty & _).
  pose proof (send_sms_single_edges ascii_lower registry3 "0912345678")
    as (_ & Hfirst & Hkey).
  split_and!.
  - by apply Hempty.
  - by apply (Hfirst eq_refl "smsvip_0_momo" sends
                [("smsvip_0_tiki", quiet); ("smsvip_1_fpt", refuses)]).
  - apply (Hkey "smsvip_1_fpt" refuses).
    do 2 apply list_elem_of_further. apply list_elem_of_here.
Defined.

Lemma validate_phone_normal_form_witness :
  "0912345678" = main.digits_of "091-234 5678"
  ∧ all_digits "0912345678" = true
  ∧ 10 ≤ Z.of_nat (String.length "0912345678") ≤ 11
  ∧ String.prefix "0" "0912345678" = true
  ∧ main.validate_phone "0912345678" = Returns "0912345678".
Proof.
  apply (validate_phone_normal_form "091-234 5678" "0912345678"); reflexivity.
Defined.

Lemma loaded2_only_Exception :
  Forall (raises_only_Exception "0912345678") (services loaded2).
Proof. repeat constructor; intros e; vm_compute; discriminate. Defined.

Lemma post_send_responses_witness :
  ∃ br g',
    main.send_sms_batch env_two_modules prompt request0 world0 draws
    = (Returns (main.Response (main.BatchCompleted
         ("Đã gửi SMS qua " +:+ pretty (success_count br) +:+ "/"
          +:+ pretty (total_services br) +:+ " dịch vụ") br)), world1, g')
    ∧ total_services br = 2.
Proof.
  destruct (post_send_responses env_two_modules prompt "091-234 5678" None
              request0 world0 draws loaded2 world1)
    as (selected & g' & Hsel & Hlen & Hdone & _).
  - reflexivity.
  - reflexivity.
  - vm_compute. reflexivity.
  - exact loaded2_only_Exception.
  - destruct Hdone as (br & Hret & Htot & _).
    + apply late_nil_iff, Forall_forall. intros entry _. vm_compute. lia.
    + exists br, g'. split; [exact Hret|].
      rewrite Htot, Hlen. vm_compute. reflexivity.
Defined.

Lemma spam_get_responses_witness :
  main.spam_get env_two_modules prompt "0912345678" (-3) world0 draws
  = (Returns (main.Response
       (main.SpamError "Sample larger than population or is negative")),
     world1, draws)
  ∧ main.spam_get env_two_modules prompt "912345678" 5 world0 draws
    = (Returns (main.Response (main.SpamError "So dien thoai khong hop le")),
       world0, draws).
Proof.
  pose proof (spam_get_responses env_two_modules prompt "0912345678" (-3)
                world0 draws loaded2 world1 eq_refl)
    as Hvalid.
  pose proof (spam_get_responses env_two_modules prompt "912345678" 5
                world0 draws loaded2 world1 eq_refl)
    as Hinvalid.
  split.
  - destruct Hvalid as (_ & _ & _ & Hneg).
    + vm_compute. reflexivity.
    + exact loaded2_only_Exception.
    + apply Hneg; [reflexivity|vm_compute; discriminate|lia].
  - destruct Hinvalid as (_ & Hbad & _).
    + vm_compute. reflexivity.
    + repeat constructor; intros e; vm_compute; discriminate.
    + apply Hbad. by left.
Defined.


Lemma list_services_response_witness :
  ∃ listed,
    main.list_services env_two_modules world0
    = (Returns (main.Response (main.ServiceList
         (Z.of_nat (length (get_available_services loaded2))) listed)), world1)
    ∧ length listed = (50 `min` length (get_available_services loaded2))%nat
    ∧ NoDup listed
    ∧ Sorted main.string_le listed
    ∧ (∀ name, name ∈ listed → name ∈ service_names loaded2)
    ∧ ((length (get_available_services loaded2) ≤ 50)%nat →
       ∀ name, name ∈ listed ↔ name ∈ service_names loaded2).
Proof.
  apply (list_services_response env_two_modules world0 loaded2 world1).
  vm_compute. reflexivity.
Defined.

Lemma late_adapters_raise_TimeoutError_witness :
  send_sms_batch registry10 one_slow "0912345678" 10 draws
  = (Raises (TimeoutError "1 (of 10) futures unfinished"),
     λ i, draws (S (S (S (S (S (S (S (S (S (S i)))))))))))
  ∧ (0 < 1 ≤ 10)%nat.
Proof.
  apply (late_adapters_raise_TimeoutError registry10 one_slow
           "0912345678" 10 draws
           [("smsvip_0_s3", sends); ("smsvip_0_s1", sends);
            ("smsvip_0_s8", sends); ("smsvip_0_s9", sends);
            ("smsvip_0_s7", sends); ("smsvip_0_s6", sends);
            ("smsvip_0_s5", sends); ("smsvip_0_s4", sends);
            ("smsvip_0_s2", sends); ("smsvip_0_s0", sends)]).
  - vm_compute. reflexivity.
  - repeat constructor; intros e; vm_compute; discriminate.
  - vm_compute. discriminate.
Defined.

Lemma failed_first_load_is_kept_witness :
  exn_is_Exception (SystemExit "1") = false
  ∧ ∃ partial,
      _loader (get_loader env_exit_on_import world0).2 = Some partial
      ∧ partial = (load_all_services env_exit_on_import new_loader []).1.2
      ∧ get_loader env_exit_on_import (get_loader env_exit_on_import world0).2
        = (Returns partial, (get_loader env_exit_on_import world0).2).
Proof.
  apply (failed_first_load_is_kept env_exit_on_import world0 (SystemExit "1")).
  - reflexivity.
  - vm_compute. reflexivity.
Defined.
